(** * A model of the typing-game session core ([src/app/services/game.ts])
    and of its keystroke error classifier ([src/app/services/error-feedback.ts]).

    Modelling conventions.
    - A JavaScript [number] that always holds an integer (score, counters,
      seconds left, [Date.now()] in milliseconds) is a [Z], within the safe
      integers, where double arithmetic is exact. A [number] that can be
      fractional (the score multiplier, times in seconds) is a [Q] holding a
      double; an operation whose result need not be a double is rounded by
      [fl], IEEE-754 binary64 rounding to nearest, ties to even. Operations
      whose exact result is always a double (integer sums and products, the
      half-integer multiplier) are left unrounded.
    - Strings are Stdlib strings of ASCII characters.
    - The [GameService] object is a record [Service]; its methods are
      functions in a small state monad [M] over that record.
    - [Date.now()] reads the [now] field; time moves only between events
      (method calls and timer fires), so the two reads of [Date.now()] inside
      one synchronous callback agree.
    - An RxJS [interval(...)] subscription is the field that says whether it
      is subscribed ([timerSubscription]) or with which captured
      [timePerWord] ([wordTimerSubscription]); a fire of the interval is the
      event [gameTimerTick] / [wordTimerTick]. A [setTimeout(endGame, 100)]
      is a due time in [timeouts].
    - [WordService.getRandomWord] draws with [Math.random()]; its draws are the
      field [randomSource], indexed by a draw counter [rng]. The module
      [WordService] models the selection itself for one given draw.
    - The error log of [ErrorFeedbackService] and the keystroke statistics of
      [HeatMapService] are records; their methods are functions on them. An
      object literal used as a table inherits the members of
      [Object.prototype], which the table lookups of both services list. *)

From Stdlib Require Import ZArith QArith Qround Qminmax Qabs Qpower String Ascii List Bool Lia Lqa
  Sorting.Permutation Sorting.Sorted.
Import ListNotations.

Local Open Scope string_scope.
Local Open Scope Z_scope.

(** ** JavaScript helpers *)

(** [Math.round]: the nearest integer, halves rounded towards +infinity. *)
Definition Math_round (x : Q) : Z := Qfloor (x + (1 # 2)).

(** [Math.floor]. *)
Definition Math_floor (x : Q) : Z := Qfloor x.

(** [x < y] on numbers. *)
Definition Qltb (x y : Q) : bool := negb (Qle_bool y x).

(** [s.length]. *)
Definition js_length (s : string) : Z := Z.of_nat (String.length s).

(** *** Binary64 rounding *)

(** [2^e] for any integer [e]. *)
Definition pow2 (e : Z) : Q := Qpower (2 # 1) e.

(** [floor(log2 |x|)] for [x <> 0]. *)
Definition Qlog2_floor (x : Q) : Z :=
  let e := Z.log2 (Z.abs (Qnum x)) - Z.log2 (Zpos (Qden x)) in
  if Qle_bool (pow2 e) (Qabs x) then e else e - 1.

(** The nearest integer, ties to the even one. *)
Definition round_even (m : Q) : Z :=
  let f := Qfloor m in
  match (m - inject_Z f ?= 1 # 2)%Q with
  | Lt => f
  | Gt => f + 1
  | Eq => if Z.even f then f else f + 1
  end.

(** The exponent of the unit in the last place of a double near [x]: 53
    significant bits, subnormals below [2^-1022]. *)
Definition ulp_exp (x : Q) : Z := Z.max (Qlog2_floor x - 52) (-1074).

(** The double nearest to [x] (ties to even), as IEEE-754 arithmetic rounds
    every operation; overflow does not occur in the values of this program. *)
Definition fl (x : Q) : Q :=
  if Qeq_bool x 0 then 0
  else Qred (inject_Z (round_even (x / pow2 (ulp_exp x))) * pow2 (ulp_exp x)).

(** ** Data ([GameState], [GameSettings], [TypingResult]) *)

Record GameState := mkGameState {
  isPlaying : bool;
  isGameOver : bool;
  isPaused : bool;
  currentWord : string;
  userInput : string;
  score : Z;
  correctWords : Z;
  totalWords : Z;
  accuracy : Z;
  wpm : Z;
  timeRemaining : Z;
  streak : Z;
  multiplier : Q;
  gameTimeTotal : Z;
  wordsTyped : list string;
  mistakes : Z
}.

Record CustomText := mkCustomText {
  customTextId : string;
  content : string
}.

(** [isCustomMode?: boolean]: an absent flag is [false]. *)
Record GameSettings := mkGameSettings {
  difficulty : string;
  category : string;
  gameDuration : Z;
  wordsPerGame : Z;
  customText : option CustomText;
  isCustomMode : bool
}.

Record TypingResult := mkTypingResult {
  isCorrect : bool;
  timeTaken : Q;
  word : string
}.

(** [getInitialState()] *)
Definition getInitialState : GameState :=
  {| isPlaying := false; isGameOver := false; isPaused := false;
     currentWord := ""; userInput := "";
     score := 0; correctWords := 0; totalWords := 0;
     accuracy := 100; wpm := 0; timeRemaining := 60;
     streak := 0; multiplier := 1; gameTimeTotal := 60;
     wordsTyped := []; mistakes := 0 |}.

(** [{ ...state, userInput: input }] *)
Definition set_userInput (u : string) (g : GameState) : GameState :=
  {| isPlaying := isPlaying g; isGameOver := isGameOver g; isPaused := isPaused g;
     currentWord := currentWord g; userInput := u;
     score := score g; correctWords := correctWords g; totalWords := totalWords g;
     accuracy := accuracy g; wpm := wpm g; timeRemaining := timeRemaining g;
     streak := streak g; multiplier := multiplier g; gameTimeTotal := gameTimeTotal g;
     wordsTyped := wordsTyped g; mistakes := mistakes g |}.

(** [{ ...state, timeRemaining: t }] *)
Definition set_timeRemaining (t : Z) (g : GameState) : GameState :=
  {| isPlaying := isPlaying g; isGameOver := isGameOver g; isPaused := isPaused g;
     currentWord := currentWord g; userInput := userInput g;
     score := score g; correctWords := correctWords g; totalWords := totalWords g;
     accuracy := accuracy g; wpm := wpm g; timeRemaining := t;
     streak := streak g; multiplier := multiplier g; gameTimeTotal := gameTimeTotal g;
     wordsTyped := wordsTyped g; mistakes := mistakes g |}.

(** [{ ...state, isPlaying: p, isGameOver: o, isPaused: z }] *)
Definition set_flags (p o z : bool) (g : GameState) : GameState :=
  {| isPlaying := p; isGameOver := o; isPaused := z;
     currentWord := currentWord g; userInput := userInput g;
     score := score g; correctWords := correctWords g; totalWords := totalWords g;
     accuracy := accuracy g; wpm := wpm g; timeRemaining := timeRemaining g;
     streak := streak g; multiplier := multiplier g; gameTimeTotal := gameTimeTotal g;
     wordsTyped := wordsTyped g; mistakes := mistakes g |}.

(** The phase the four-state lifecycle reads off the three flags. *)
Definition isRunning (g : GameState) : bool :=
  isPlaying g && negb (isPaused g) && negb (isGameOver g).

(** ** The service object *)

Record Service := mkService {
  gameState : GameState;
  currentSettings : GameSettings;
  timerSubscription : bool;
  wordTimerSubscription : option Q;
  gameStartTime : Z;
  wordStartTime : Z;
  customTextWords : list string;
  customTextIndex : nat;
  timeouts : list Z;
  now : Z;
  randomSource : string -> string -> nat -> string;
  rng : nat
}.

(** Field updates of the service object. *)
Definition with_gameState (g : GameState) (s : Service) : Service :=
  mkService g (currentSettings s) (timerSubscription s) (wordTimerSubscription s)
    (gameStartTime s) (wordStartTime s) (customTextWords s) (customTextIndex s)
    (timeouts s) (now s) (randomSource s) (rng s).

Definition with_currentSettings (c : GameSettings) (s : Service) : Service :=
  mkService (gameState s) c (timerSubscription s) (wordTimerSubscription s)
    (gameStartTime s) (wordStartTime s) (customTextWords s) (customTextIndex s)
    (timeouts s) (now s) (randomSource s) (rng s).

Definition with_timerSubscription (b : bool) (s : Service) : Service :=
  mkService (gameState s) (currentSettings s) b (wordTimerSubscription s)
    (gameStartTime s) (wordStartTime s) (customTextWords s) (customTextIndex s)
    (timeouts s) (now s) (randomSource s) (rng s).

Definition with_wordTimerSubscription (w : option Q) (s : Service) : Service :=
  mkService (gameState s) (currentSettings s) (timerSubscription s) w
    (gameStartTime s) (wordStartTime s) (customTextWords s) (customTextIndex s)
    (timeouts s) (now s) (randomSource s) (rng s).

Definition with_gameStartTime (t : Z) (s : Service) : Service :=
  mkService (gameState s) (currentSettings s) (timerSubscription s) (wordTimerSubscription s)
    t (wordStartTime s) (customTextWords s) (customTextIndex s)
    (timeouts s) (now s) (randomSource s) (rng s).

Definition with_wordStartTime (t : Z) (s : Service) : Service :=
  mkService (gameState s) (currentSettings s) (timerSubscription s) (wordTimerSubscription s)
    (gameStartTime s) t (customTextWords s) (customTextIndex s)
    (timeouts s) (now s) (randomSource s) (rng s).

Definition with_customText (ws : list string) (i : nat) (s : Service) : Service :=
  mkService (gameState s) (currentSettings s) (timerSubscription s) (wordTimerSubscription s)
    (gameStartTime s) (wordStartTime s) ws i
    (timeouts s) (now s) (randomSource s) (rng s).

Definition with_timeouts (ts : list Z) (s : Service) : Service :=
  mkService (gameState s) (currentSettings s) (timerSubscription s) (wordTimerSubscription s)
    (gameStartTime s) (wordStartTime s) (customTextWords s) (customTextIndex s)
    ts (now s) (randomSource s) (rng s).

Definition with_now (t : Z) (s : Service) : Service :=
  mkService (gameState s) (currentSettings s) (timerSubscription s) (wordTimerSubscription s)
    (gameStartTime s) (wordStartTime s) (customTextWords s) (customTextIndex s)
    (timeouts s) t (randomSource s) (rng s).

Definition with_rng (n : nat) (s : Service) : Service :=
  mkService (gameState s) (currentSettings s) (timerSubscription s) (wordTimerSubscription s)
    (gameStartTime s) (wordStartTime s) (customTextWords s) (customTextIndex s)
    (timeouts s) (now s) (randomSource s) n.

(** ** The state monad of the service's methods *)

Definition M (A : Type) : Type := Service -> A * Service.

Definition ret {A : Type} (a : A) : M A := fun s => (a, s).

Definition bind {A B : Type} (m : M A) (k : A -> M B) : M B :=
  fun s => let (a, s') := m s in k a s'.

Notation "x <- m ;; k" := (bind m (fun x => k))
  (at level 61, m at next level, right associativity).
Notation "m ;; k" := (bind m (fun _ : unit => k))
  (at level 61, right associativity).

Definition gets {A : Type} (f : Service -> A) : M A := fun s => (f s, s).
Definition modify (f : Service -> Service) : M unit := fun s => (tt, f s).

(** [this.gameState()], [this.gameState.set], [this.gameState.update] *)
Definition getGameState : M GameState := gets gameState.
Definition setGameState (g : GameState) : M unit := modify (with_gameState g).
Definition updateGameState (f : GameState -> GameState) : M unit :=
  g <- getGameState;; setGameState (f g).

(** [Date.now()] *)
Definition dateNow : M Z := gets now.

(** ** String helpers (ASCII) *)

(** [String.prototype.toLowerCase] *)
Definition ascii_toLower (c : ascii) : ascii :=
  let n := nat_of_ascii c in
  if (65 <=? n)%nat && (n <=? 90)%nat then ascii_of_nat (n + 32) else c.

Fixpoint toLowerCase (s : string) : string :=
  match s with
  | EmptyString => EmptyString
  | String c r => String (ascii_toLower c) (toLowerCase r)
  end.

(** The regular-expression class [\s] on ASCII: tab, line feed, vertical
    tab, form feed, carriage return and space. *)
Definition is_js_space (c : ascii) : bool :=
  let n := nat_of_ascii c in
  ((9 <=? n)%nat && (n <=? 13)%nat) || (n =? 32)%nat.

(** [s.split(/\s+/)]: a maximal run of white space separates two pieces; a
    leading or trailing run yields an empty piece. [sep] says that the
    previous character was white space (so [cur] is empty). *)
Fixpoint split_ws_go (s : string) (cur : string) (sep : bool) : list string :=
  match s with
  | EmptyString => [cur]
  | String c r =>
      if is_js_space c then
        if sep then split_ws_go r cur true else cur :: split_ws_go r "" true
      else split_ws_go r (cur ++ String c "") false
  end.

Definition split_ws (s : string) : list string := split_ws_go s "" false.

(** The character class of the regular expression in [initializeCustomText]:
    full stop, comma, exclamation and question marks, semicolon, colon,
    double quote (code 34), apostrophe, both parentheses and hyphen. *)
Definition stripped_chars : list ascii :=
  ["."; ","; "!"; "?"; ";"; ":"; "034"; "'"; "("; ")"; "-"]%char.

Definition is_stripped (c : ascii) : bool := existsb (Ascii.eqb c) stripped_chars.

(** [word.replace(/[...]/g, '')] with the class [stripped_chars]. *)
Fixpoint remove_punct (s : string) : string :=
  match s with
  | EmptyString => EmptyString
  | String c r => if is_stripped c then remove_punct r else String c (remove_punct r)
  end.

(** ** WordService ([src/app/services/custom-text.ts]) *)

(** [difficultyLevels]: name and [timePerWord] in seconds. *)
Definition difficultyLevels : list (string * Q) :=
  [("Easy", 4 # 1); ("Medium", 5 # 2); ("Hard", 3 # 2); ("Expert", 1 # 1)].

(** [getTimePerWord(difficulty)] *)
Definition getTimePerWord (d : string) : Q :=
  match find (fun p => String.eqb (fst p) d) difficultyLevels with
  | Some p => snd p
  | None => 5 # 2
  end.

(** [getRandomWord(category, difficulty)]: one draw of the random source. *)
Definition getRandomWord (cat diff : string) : M string :=
  fun s => (randomSource s cat diff (rng s), with_rng (S (rng s)) s).

(** ** GameService ([src/app/services/game.ts]) *)

Definition getSettings : M GameSettings := gets currentSettings.

(** [initializeCustomText(customText)]; the call
    [customTextService.recordUsage] only feeds analytics. *)
Definition customTextTokens (content : string) : list string :=
  filter (fun w => 0 <? js_length w)
    (map remove_punct (split_ws (toLowerCase content))).

Definition initializeCustomText (ct : CustomText) : M unit :=
  modify (with_customText (customTextTokens (content ct)) 0).

(** [setTimeout(() => this.endGame(), delay)] *)
Definition setTimeout_endGame (delay : Z) : M unit :=
  n <- dateNow;;
  modify (fun s => with_timeouts (timeouts s ++ [n + delay]) s).

(** [getNextCustomWord()]; [customTextIndex] is always an index of
    [customTextWords], so [nth] never falls back to its default. *)
Definition getNextCustomWord : M string :=
  words <- gets customTextWords;;
  match words with
  | [] => ret "end"
  | _ =>
      i <- gets customTextIndex;;
      let w := nth i words "" in
      let i' := Nat.modulo (i + 1) (length words) in
      modify (with_customText words i');;
      g <- getGameState;;
      (if (i' =? 0)%nat && (0 <? totalWords g) then setTimeout_endGame 100 else ret tt);;
      ret w
  end.

(** [getNextWord()] *)
Definition getNextWord : M string :=
  cfg <- getSettings;;
  if isCustomMode cfg then getNextCustomWord
  else getRandomWord (category cfg) (difficulty cfg).

(** [startGameTimer()], [startWordTimer()] (subscribing with the
    [timePerWord] of the current difficulty), [stopTimers()],
    [restartWordTimer()]. *)
Definition startGameTimer : M unit := modify (with_timerSubscription true).

Definition startWordTimer : M unit :=
  cfg <- getSettings;;
  modify (with_wordTimerSubscription (Some (getTimePerWord (difficulty cfg)))).

Definition stopTimers : M unit :=
  modify (with_timerSubscription false);;
  modify (with_wordTimerSubscription None).

Definition restartWordTimer : M unit :=
  modify (with_wordTimerSubscription None);;
  g <- getGameState;;
  if isPlaying g && negb (isGameOver g) && negb (isPaused g) then startWordTimer
  else ret tt.

(** [endGame()] *)
Definition endGame : M unit :=
  stopTimers;;
  updateGameState (set_flags false true false).

(** [resetGame()] *)
Definition resetGame : M unit :=
  stopTimers;;
  setGameState getInitialState.

(** [pauseGame()] *)
Definition pauseGame : M unit :=
  updateGameState (fun g => set_flags (isPlaying g) (isGameOver g) (negb (isPaused g)) g);;
  g <- getGameState;;
  if isPaused g then stopTimers
  else startGameTimer;; startWordTimer.

(** [handleCorrectWord(timeTaken)]. The two subtractions and products of
    [timeBonus] are rounded to doubles. [Math.floor(streak / 5)] and
    [Math.floor(newStreak / 10)] are the integer quotients: the double
    quotient has the same floor for every count below [2^49]
    ([fl_div_floor]). The integer sum times the half-integer multiplier is
    exact. *)
Definition handleCorrectWord (timeTaken : Q) : M TypingResult :=
  currentState <- getGameState;;
  let baseScore := js_length (currentWord currentState) * 10 in
  let timeBonus := Z.max 0 (Math_round (fl (fl (3 - timeTaken) * 5))) in
  let streakBonus := Math_floor (inject_Z (streak currentState) / 5)%Q * 50 in
  let totalScore := (inject_Z (baseScore + timeBonus + streakBonus) * multiplier currentState)%Q in
  let newStreak := streak currentState + 1 in
  let newMultiplier :=
    Qmin 5 (1 + inject_Z (Math_floor (inject_Z newStreak / 10)) * (1 # 2))%Q in
  state <- getGameState;;
  next <- getNextWord;;
  setGameState
    {| isPlaying := isPlaying state; isGameOver := isGameOver state;
       isPaused := isPaused state;
       currentWord := next; userInput := "";
       score := score state + Math_round totalScore;
       correctWords := correctWords state + 1;
       totalWords := totalWords state + 1;
       accuracy := accuracy state; wpm := wpm state;
       timeRemaining := timeRemaining state;
       streak := newStreak; multiplier := newMultiplier;
       gameTimeTotal := gameTimeTotal state;
       wordsTyped := wordsTyped state ++ [currentWord state];
       mistakes := mistakes state |};;
  n <- dateNow;;
  modify (with_wordStartTime n);;
  restartWordTimer;;
  ret {| isCorrect := true; timeTaken := timeTaken; word := currentWord currentState |}.

(** [handleIncorrectWord(timeTaken)] *)
Definition handleIncorrectWord (timeTaken : Q) : M TypingResult :=
  currentState <- getGameState;;
  state <- getGameState;;
  next <- getNextWord;;
  setGameState
    {| isPlaying := isPlaying state; isGameOver := isGameOver state;
       isPaused := isPaused state;
       currentWord := next; userInput := "";
       score := score state;
       correctWords := correctWords state;
       totalWords := totalWords state + 1;
       accuracy := accuracy state; wpm := wpm state;
       timeRemaining := timeRemaining state;
       streak := 0; multiplier := 1;
       gameTimeTotal := gameTimeTotal state;
       wordsTyped := wordsTyped state ++ [currentWord state];
       mistakes := mistakes state + 1 |};;
  n <- dateNow;;
  modify (with_wordStartTime n);;
  restartWordTimer;;
  ret {| isCorrect := false; timeTaken := timeTaken; word := currentWord currentState |}.

(** [d / 1000] for a whole number [d] of milliseconds, a double. *)
Definition msToSeconds (d : Z) : Q := fl (inject_Z d / 1000).

(** [(Date.now() - this.wordStartTime) / 1000] *)
Definition secondsSinceWordStart : M Q :=
  n <- dateNow;;
  ws <- gets wordStartTime;;
  ret (msToSeconds (n - ws)).

(** [processInput(input)] *)
Definition processInput (input : string) : M TypingResult :=
  currentState <- getGameState;;
  timeTaken <- secondsSinceWordStart;;
  updateGameState (set_userInput input);;
  if String.eqb input (currentWord currentState) then handleCorrectWord timeTaken
  else if js_length (currentWord currentState) <=? js_length input
  then handleIncorrectWord timeTaken
  else ret {| isCorrect := false; timeTaken := timeTaken; word := currentWord currentState |}.

(** [skipWord()] *)
Definition skipWord : M unit :=
  t <- secondsSinceWordStart;;
  _ <- handleIncorrectWord t;;
  ret tt.

(** [startGame(settings)]; a given settings object is a complete one, so
    [{ ...current, ...settings }] is that object. *)
Definition startGame (settings : option GameSettings) : M unit :=
  (match settings with
   | Some c => modify (with_currentSettings c)
   | None => ret tt
   end);;
  cfg <- getSettings;;
  newWord <-
    (match isCustomMode cfg, customText cfg with
     | true, Some ct => initializeCustomText ct;; getNextCustomWord
     | _, _ => getRandomWord (category cfg) (difficulty cfg)
     end);;
  cfg' <- getSettings;;
  setGameState
    {| isPlaying := true; isGameOver := isGameOver getInitialState;
       isPaused := isPaused getInitialState;
       currentWord := newWord; userInput := userInput getInitialState;
       score := score getInitialState; correctWords := correctWords getInitialState;
       totalWords := totalWords getInitialState;
       accuracy := accuracy getInitialState; wpm := wpm getInitialState;
       timeRemaining := gameDuration cfg';
       streak := streak getInitialState; multiplier := multiplier getInitialState;
       gameTimeTotal := gameTimeTotal getInitialState;
       wordsTyped := wordsTyped getInitialState; mistakes := mistakes getInitialState |};;
  n <- dateNow;;
  modify (with_gameStartTime n);;
  modify (with_wordStartTime n);;
  startGameTimer;;
  startWordTimer.

(** ** Timer fires *)

(** One emission of [interval(1000)] in [startGameTimer]: [takeWhile]
    lets it through to [tap] or completes the subscription. *)
Definition gameTimerTick : M unit :=
  subscribed <- gets timerSubscription;;
  if subscribed then
    g <- getGameState;;
    if (0 <? timeRemaining g) && isPlaying g && negb (isPaused g) then
      updateGameState (fun state => set_timeRemaining (Z.max 0 (timeRemaining state - 1)) state);;
      g' <- getGameState;;
      if timeRemaining g' <=? 0 then endGame else ret tt
    else modify (with_timerSubscription false)
  else ret tt.

(** One emission of [interval(100)] in [startWordTimer]: the [takeWhile]
    predicate with the captured [timePerWord], then the [tap] body. *)
Definition wordTimerTick : M unit :=
  sub <- gets wordTimerSubscription;;
  match sub with
  | None => ret tt
  | Some timePerWord =>
      elapsed <- secondsSinceWordStart;;
      g <- getGameState;;
      if Qltb elapsed timePerWord && isPlaying g && negb (isPaused g)
         && negb (isGameOver g) then
        elapsed' <- secondsSinceWordStart;;
        cfg <- getSettings;;
        let timePerWord' := getTimePerWord (difficulty cfg) in
        if Qle_bool timePerWord' elapsed' then skipWord else ret tt
      else modify (with_wordTimerSubscription None)
  end.

(** The firing of a due [setTimeout(() => this.endGame(), 100)]. *)
Definition timeoutTick : M unit :=
  ts <- gets timeouts;;
  n <- dateNow;;
  match ts with
  | t :: rest => if t <=? n then modify (with_timeouts rest);; endGame else ret tt
  | [] => ret tt
  end.

(** Clock events: an emission of either interval, or time passing. *)
Inductive Tick :=
| GameTick
| WordTick
| Elapse (ms : Z).

Definition tick (t : Tick) : M unit :=
  match t with
  | GameTick => gameTimerTick
  | WordTick => wordTimerTick
  | Elapse ms => modify (fun s => with_now (now s + ms) s)
  end.

Fixpoint runTicks (ts : list Tick) : M unit :=
  match ts with
  | [] => ret tt
  | t :: rest => tick t;; runTicks rest
  end.

(** [n] one-second emissions of the game timer, one second apart. *)
Fixpoint secondTicks (n : nat) : list Tick :=
  match n with
  | O => []
  | S k => Elapse 1000 :: GameTick :: secondTicks k
  end.

(** ** ErrorFeedbackService ([src/app/services/error-feedback.ts]) *)

Module ErrorFeedback.

Inductive PatternType :=
| finger_slip
| finger_confusion
| timing
| visual
| muscle_memory
| keyboard_layout.

Definition PatternType_eqb (a b : PatternType) : bool :=
  match a, b with
  | finger_slip, finger_slip
  | finger_confusion, finger_confusion
  | timing, timing
  | visual, visual
  | muscle_memory, muscle_memory
  | keyboard_layout, keyboard_layout => true
  | _, _ => false
  end.

Inductive Severity := low | medium | high.

(** [ErrorPattern] without its presentation-only [icon]. *)
Record ErrorPattern := mkErrorPattern {
  type : PatternType;
  severity : Severity;
  description : string;
  suggestion : string;
  color : string
}.

Definition errorPatterns : list ErrorPattern :=
  [ mkErrorPattern finger_slip low "Adjacent key mistake"
      "Slow down and focus on finger placement" "#ffc107";
    mkErrorPattern finger_confusion medium "Wrong finger used"
      "Practice proper finger positioning" "#fd7e14";
    mkErrorPattern timing medium "Rushed keystroke"
      "Maintain steady rhythm" "#17a2b8";
    mkErrorPattern visual high "Visual recognition error"
      "Focus on letter recognition" "#dc3545";
    mkErrorPattern muscle_memory high "Muscle memory mismatch"
      "Practice key combinations" "#6f42c1";
    mkErrorPattern keyboard_layout low "Layout confusion"
      "Practice with consistent keyboard" "#20c997" ].

(** [this.errorPatterns.find(p => p.type === t)] *)
Definition findPattern (t : PatternType) : option ErrorPattern :=
  find (fun p => PatternType_eqb (type p) t) errorPatterns.

Record KeyInfo := mkKeyInfo {
  row : Z;
  col : Z;
  finger : string
}.

Definition keyboardLayout : list (string * KeyInfo) :=
  [ ("q", mkKeyInfo 1 0 "left-pinky"); ("w", mkKeyInfo 1 1 "left-ring");
    ("e", mkKeyInfo 1 2 "left-middle"); ("r", mkKeyInfo 1 3 "left-index");
    ("t", mkKeyInfo 1 4 "left-index"); ("y", mkKeyInfo 1 5 "right-index");
    ("u", mkKeyInfo 1 6 "right-index"); ("i", mkKeyInfo 1 7 "right-middle");
    ("o", mkKeyInfo 1 8 "right-ring"); ("p", mkKeyInfo 1 9 "right-pinky");
    ("a", mkKeyInfo 2 0 "left-pinky"); ("s", mkKeyInfo 2 1 "left-ring");
    ("d", mkKeyInfo 2 2 "left-middle"); ("f", mkKeyInfo 2 3 "left-index");
    ("g", mkKeyInfo 2 4 "left-index"); ("h", mkKeyInfo 2 5 "right-index");
    ("j", mkKeyInfo 2 6 "right-index"); ("k", mkKeyInfo 2 7 "right-middle");
    ("l", mkKeyInfo 2 8 "right-ring"); ("z", mkKeyInfo 3 0 "left-pinky");
    ("x", mkKeyInfo 3 1 "left-ring"); ("c", mkKeyInfo 3 2 "left-middle");
    ("v", mkKeyInfo 3 3 "left-index"); ("b", mkKeyInfo 3 4 "left-index");
    ("n", mkKeyInfo 3 5 "right-index"); ("m", mkKeyInfo 3 6 "right-index");
    (" ", mkKeyInfo 4 4 "thumbs") ].

(** The properties every object literal inherits from [Object.prototype];
    indexing the layout with one of these names yields a truthy value
    (a function, or [Object.prototype] itself) that has no [row], [col] or
    [finger]. *)
Definition objectPrototypeMembers : list string :=
  [ "constructor"; "__defineGetter__"; "__defineSetter__"; "hasOwnProperty";
    "__lookupGetter__"; "__lookupSetter__"; "isPrototypeOf"; "propertyIsEnumerable";
    "toString"; "valueOf"; "__proto__"; "toLocaleString" ].

Inductive LayoutValue :=
| Own (info : KeyInfo)
| Inherited (name : string).

(** The own properties of the layout. *)
Definition ownKey (key : string) : option KeyInfo :=
  option_map snd (find (fun e => String.eqb (fst e) key) keyboardLayout).

(** [this.keyboardLayout[key]], [undefined] as [None]. *)
Definition layoutLookup (key : string) : option LayoutValue :=
  match ownKey key with
  | Some info => Some (Own info)
  | None => if existsb (String.eqb key) objectPrototypeMembers then Some (Inherited key) else None
  end.

(** [.row], [.col], [.finger] of a layout value, [undefined] as [None]. *)
Definition lv_row (v : LayoutValue) : option Z :=
  match v with Own i => Some (row i) | Inherited _ => None end.
Definition lv_col (v : LayoutValue) : option Z :=
  match v with Own i => Some (col i) | Inherited _ => None end.
Definition lv_finger (v : LayoutValue) : option string :=
  match v with Own i => Some (finger i) | Inherited _ => None end.

(** Arithmetic on integer [number]s that may be read as [undefined]: an
    [undefined] operand gives [NaN], written [None]. *)
Definition num_sub (a b : option Z) : option Z :=
  match a, b with Some x, Some y => Some (x - y) | _, _ => None end.
Definition num_add (a b : option Z) : option Z :=
  match a, b with Some x, Some y => Some (x + y) | _, _ => None end.

(** [a === n], [a <= n], [a > n] for a literal [n]: false on [NaN]. *)
Definition num_eqb (a : option Z) (n : Z) : bool :=
  match a with Some x => x =? n | None => false end.
Definition num_leb (a : option Z) (n : Z) : bool :=
  match a with Some x => x <=? n | None => false end.
Definition num_gtb (a : option Z) (n : Z) : bool :=
  match a with Some x => n <? x | None => false end.

(** [a !== b] on [finger] values, [undefined] as [None]. *)
Definition opt_str_neqb (a b : option string) : bool :=
  match a, b with
  | Some x, Some y => negb (String.eqb x y)
  | None, None => false
  | _, _ => true
  end.

(** [classifyError(expected, actual, timeTaken)]. The literal [0.1] is
    written 1/10: on a double [timeTaken] the comparison with the double
    nearest to 1/10 has the same outcome ([double_lt_tenth]). *)
Definition classifyError (expected actual : string) (timeTaken : Q) : option ErrorPattern :=
  match layoutLookup (toLowerCase expected), layoutLookup (toLowerCase actual) with
  | Some expectedKey, Some actualKey =>
      let distance := num_add (option_map Z.abs (num_sub (lv_row expectedKey) (lv_row actualKey)))
                              (option_map Z.abs (num_sub (lv_col expectedKey) (lv_col actualKey))) in
      if num_eqb distance 1 then findPattern finger_slip
      else if opt_str_neqb (lv_finger expectedKey) (lv_finger actualKey) && num_leb distance 2
      then findPattern finger_confusion
      else if Qltb timeTaken (1 # 10) then findPattern timing
      else if num_gtb distance 3 then findPattern visual
      else findPattern muscle_memory
  | _, _ => findPattern visual
  end.

(** The classification rules in the order the specification lists them,
    over single characters; the geometry table is consulted with the
    lower-cased character. *)
Definition keyOf (c : ascii) : option KeyInfo := ownKey (toLowerCase (String c "")).

Definition manhattan (k1 k2 : KeyInfo) : Z :=
  Z.abs (row k1 - row k2) + Z.abs (col k1 - col k2).

Definition classify_rules (expected actual : ascii) (t : Q) : PatternType :=
  match keyOf expected, keyOf actual with
  | None, _ | _, None => visual
  | Some k1, Some k2 =>
      let d := manhattan k1 k2 in
      if d =? 1 then finger_slip
      else if negb (String.eqb (finger k1) (finger k2)) && (d <=? 2) then finger_confusion
      else if Qltb t (1 # 10) then timing
      else if d >? 3 then visual
      else muscle_memory
  end.

(** ** [ErrorFeedbackService]: the error log and its analysis *)

(** The decimal digits of a non-negative integer (as a template literal
    prints a [number]); [fuel] bounds the number of digits. *)
Fixpoint digits_go (fuel : nat) (n : Z) (acc : string) : string :=
  match fuel with
  | O => acc
  | S f =>
      let acc' := String (ascii_of_nat (48 + Z.to_nat (n mod 10))) acc in
      if n / 10 =? 0 then acc' else digits_go f (n / 10) acc'
  end.

(** [String(n)] for an integer [n]. *)
Definition Z_to_string (n : Z) : string :=
  if n <? 0 then "-" ++ digits_go (S (Z.to_nat (Z.log2 (- n)))) (- n) ""
  else digits_go (S (Z.to_nat (Z.log2 n))) n "".

(** [Math.sqrt(n)] of an integer [n], kept exact as its radicand, or
    [NaN]. *)
Inductive JsSqrt :=
| SqrtOf (radicand : Z)
| SqrtNaN.

Record TypingError := mkTypingError {
  id : string;
  timestamp : Z;
  expectedChar : string;
  actualChar : string;
  word : string;
  position : Z;
  timeTaken : Q;
  pattern : option ErrorPattern;
  fingerUsed : string;
  keyDistance : JsSqrt
}.

(** The two signals [errors] and [sessionErrors]. *)
Record ErrorStore := mkErrorStore {
  errors : list TypingError;
  sessionErrors : list TypingError
}.

(** [getFingerForKey(key)]: [?.finger || 'unknown']. *)
Definition getFingerForKey (key : string) : string :=
  match option_map lv_finger (layoutLookup (toLowerCase key)) with
  | Some (Some f) => if String.eqb f "" then "unknown" else f
  | _ => "unknown"
  end.

(** [calculateKeyDistance(key1, key2)]: [Math.pow] of a [NaN] difference is
    [NaN], and so is the square root. *)
Definition calculateKeyDistance (key1 key2 : string) : JsSqrt :=
  match layoutLookup (toLowerCase key1), layoutLookup (toLowerCase key2) with
  | Some pos1, Some pos2 =>
      match num_sub (lv_row pos1) (lv_row pos2), num_sub (lv_col pos1) (lv_col pos2) with
      | Some dr, Some dc => SqrtOf (dr * dr + dc * dc)
      | _, _ => SqrtNaN
      end
  | _, _ => SqrtOf 0
  end.

(** [recordError(expectedChar, actualChar, word, position, timeTaken)] at
    clock [nowMs]; [randomPart] is [Math.random().toString(36).substr(2, 9)]. *)
Definition recordError (nowMs : Z) (randomPart : string)
  (expectedChar actualChar word : string) (position : Z) (timeTaken : Q)
  (st : ErrorStore) : ErrorStore :=
  let error :=
    {| id := "error_" ++ Z_to_string nowMs ++ "_" ++ randomPart;
       timestamp := nowMs;
       expectedChar := toLowerCase expectedChar;
       actualChar := toLowerCase actualChar;
       word := word; position := position; timeTaken := timeTaken;
       pattern := classifyError expectedChar actualChar timeTaken;
       fingerUsed := getFingerForKey actualChar;
       keyDistance := calculateKeyDistance expectedChar actualChar |} in
  let errs := app (errors st) [error] in
  let sess := app (sessionErrors st) [error] in
  let errs' := if (1000 <? length errs)%nat then skipn (length errs - 800) errs else errs in
  {| errors := errs'; sessionErrors := sess |}.

(** [clearSessionErrors()], [clearAllErrors()] *)
Definition clearSessionErrors (st : ErrorStore) : ErrorStore :=
  {| errors := errors st; sessionErrors := [] |}.

Definition clearAllErrors (st : ErrorStore) : ErrorStore :=
  {| errors := []; sessionErrors := [] |}.

(** [getErrorsForKey(key)] *)
Definition getErrorsForKey (key : string) (st : ErrorStore) : list TypingError :=
  filter (fun e => String.eqb (expectedChar e) (toLowerCase key)) (errors st).

(** A [Map] with insertion order as an association list: [m.set(k, (m.get(k) || 0) + 1)]. *)
Fixpoint map_incr {K : Type} (eqb : K -> K -> bool) (k : K) (m : list (K * Z)) : list (K * Z) :=
  match m with
  | [] => [(k, 1)]
  | (k', c) :: r => if eqb k k' then (k', c + 1) :: r else (k', c) :: map_incr eqb k r
  end.

(** [keyCounts]: per expected character, [{ total, errors }]; a missing
    entry starts at [{ total: 0, errors: 0 }] and [keyData.errors++]. *)
Fixpoint keyCounts_incr (k : string) (m : list (string * (Z * Z))) : list (string * (Z * Z)) :=
  match m with
  | [] => [(k, (0, 1))]
  | (k', (t, e)) :: r =>
      if String.eqb k k' then (k', (t, e + 1)) :: r else (k', (t, e)) :: keyCounts_incr k r
  end.

(** [arr.sort((a, b) => f(b) - f(a))]: the stable sort by decreasing [f]
    (insertion of each element after those with a key at least as large). *)
Fixpoint insert_desc {A : Type} (f : A -> Z) (x : A) (l : list A) : list A :=
  match l with
  | [] => [x]
  | y :: r => if f x <=? f y then y :: insert_desc f x r else x :: y :: r
  end.

Definition sort_desc {A : Type} (f : A -> Z) (l : list A) : list A :=
  fold_left (fun acc x => insert_desc f x acc) l [].

(** [{ pattern, count }]; [pattern] is the [find(...)] result the [!]
    assertion does not check. *)
Record PatternCount := mkPatternCount {
  pc_pattern : option ErrorPattern;
  pc_count : Z
}.

(** [{ key, errorCount, accuracy }] *)
Record ProblemKey := mkProblemKey {
  key : string;
  errorCount : Z;
  accuracy : Q
}.

Record ErrorAnalysis := mkErrorAnalysis {
  totalErrors : Z;
  errorRate : Q;
  commonPatterns : list PatternCount;
  problematicKeys : list ProblemKey;
  recommendations : list string;
  improvementFocus : list string
}.

(** [arr.join(', ')] *)
Fixpoint join (sep : string) (l : list string) : string :=
  match l with
  | [] => ""
  | [x] => x
  | x :: r => x ++ sep ++ join sep r
  end.

(** [generateRecommendations(patterns, keys)]; reading [suggestion] of an
    undefined pattern throws, the result [None]. *)
Definition generateRecommendations (patterns : list PatternCount) (keys : list ProblemKey)
  : option (list string) :=
  let r1 := match patterns with
            | [] => Some []
            | topPattern :: _ =>
                match pc_pattern topPattern with
                | Some p => Some [suggestion p]
                | None => None
                end
            end in
  match r1 with
  | None => None
  | Some r1 =>
      let r2 := match keys with
                | [] => r1
                | _ => app r1 ["Focus on improving accuracy for keys: "
                               ++ join ", " (map key (firstn 3 keys))]
                end in
      let total := fold_left (fun sum p => sum + pc_count p) patterns 0 in
      Some (if 50 <? total then app r2 ["Consider slowing down to improve accuracy"] else r2)
  end.

Definition focusText (t : PatternType) : string :=
  match t with
  | finger_slip => "Finger placement precision"
  | finger_confusion => "Proper finger assignments"
  | timing => "Typing rhythm and pacing"
  | visual => "Letter recognition and focus"
  | muscle_memory => "Key combination practice"
  | keyboard_layout => "Keyboard familiarity"
  end.

(** [[...new Set(focus)]]: first occurrences, in order. *)
Fixpoint dedup (seen : list string) (l : list string) : list string :=
  match l with
  | [] => []
  | x :: r => if existsb (String.eqb x) seen then dedup seen r else x :: dedup (x :: seen) r
  end.

(** [generateImprovementFocus(patterns)]; the [switch] on the type of an
    undefined pattern throws, the result [None]. *)
Fixpoint focus_go (patterns : list PatternCount) : option (list string) :=
  match patterns with
  | [] => Some []
  | p :: r =>
      if 5 <=? pc_count p then
        match pc_pattern p, focus_go r with
        | Some q, Some f => Some (focusText (type q) :: f)
        | _, _ => None
        end
      else focus_go r
  end.

Definition generateImprovementFocus (patterns : list PatternCount) : option (list string) :=
  option_map (dedup []) (focus_go patterns).

(** [if (error.pattern)] *)
Definition hasPattern (e : TypingError) : bool :=
  match pattern e with Some _ => true | None => false end.

(** [analyzeErrors()]; [None] when one of its steps throws. Its quotients
    are [data.errors / 1] (the per-key total stays 0) and
    [sessionErrors.length / sessionErrors.length]: integers, exact in
    doubles. *)
Definition analyzeErrors (st : ErrorStore) : option ErrorAnalysis :=
  let errs := errors st in
  let sess := sessionErrors st in
  match errs with
  | [] => Some (mkErrorAnalysis 0 0 [] [] [] [])
  | _ =>
      let patternCounts :=
        fold_left (fun m e => match pattern e with
                              | Some p => map_incr PatternType_eqb (type p) m
                              | None => m
                              end) errs [] in
      let keyCounts :=
        fold_left (fun m e => keyCounts_incr (expectedChar e) m) errs [] in
      let commonPatterns :=
        sort_desc pc_count
          (map (fun '(t, c) => mkPatternCount (findPattern t) c) patternCounts) in
      let problematicKeys :=
        sort_desc errorCount
          (filter (fun k => 3 <=? errorCount k)
             (map (fun '(k, (t, e)) =>
                     mkProblemKey k e
                       (Qmax 0 (100 - (inject_Z e / inject_Z (Z.max t 1)) * 100)))
                keyCounts)) in
      match generateRecommendations commonPatterns problematicKeys,
            generateImprovementFocus commonPatterns with
      | Some recs, Some focus =>
          let n := inject_Z (Z.of_nat (length sess)) in
          Some (mkErrorAnalysis (Z.of_nat (length errs))
                  (if (0 <? length sess)%nat then (n / n * 100)%Q else 0%Q)
                  commonPatterns problematicKeys recs focus)
      | _, _ => None
      end
  end.

End ErrorFeedback.

(** ** The scoring formulas of the specification *)

Definition specBaseScore (w : string) : Z := js_length w * 10.
Definition specTimeBonus (t : Q) : Z := Z.max 0 (Math_round ((3 - t) * 5)%Q).
Definition specStreakBonus (k : Z) : Z := (k / 5) * 50.
Definition specMultiplier (k : Z) : Q := Qmin 5 (1 + inject_Z (k / 10) * (1 # 2)).

(** The time bonus [handleCorrectWord] computes when the word took [d]
    milliseconds. *)
Definition timeBonusDouble (d : Z) : Z := Z.max 0 (Math_round (fl (fl (3 - msToSeconds d) * 5))).

(** ** Concrete sessions *)

Definition demoSettings : GameSettings :=
  mkGameSettings "Medium" "Common" 60 50 None false.

(** A random source whose successive draws are the, quick, brown, fox, ... *)
Definition demoWords (cat diff : string) (n : nat) : string :=
  nth n ["the"; "quick"; "brown"; "fox"; "jumps"; "over"; "lazy"; "dog"] "word".

(** A fresh service at clock 0. *)
Definition freshService : Service :=
  mkService getInitialState demoSettings false None 0 0 [] 0 [] 0 demoWords 0.

(** [startGame()] on it: a 60-second Medium session on the word "the". *)
Definition startedService : Service := snd (startGame None freshService).

(** [n] words typed correctly one after another, each 1 s after it started. *)
Fixpoint typeCorrectly (n : nat) (s : Service) : Service :=
  match n with
  | O => s
  | S k =>
      let s1 := with_now (now s + 1000) s in
      typeCorrectly k (snd (processInput (currentWord (gameState s1)) s1))
  end.

(** What an incorrect-word commit does to the session, in the words of the
    specification; [next] is the word fetched for the session. *)
Definition incorrectCommit (g g' : GameState) (next : string) : Prop :=
  totalWords g' = totalWords g + 1 /\ mistakes g' = mistakes g + 1 /\
  streak g' = 0 /\ multiplier g' = 1%Q /\ score g' = score g /\
  correctWords g' = correctWords g /\ userInput g' = "" /\ currentWord g' = next.

(** Custom-text sessions: "The cat, sat." and the one-word text "Hello". *)
Definition customSettings (content : string) : GameSettings :=
  mkGameSettings "Medium" "Common" 60 50 (Some (mkCustomText "t1" content)) true.

Definition startedCustom (content : string) : Service :=
  snd (startGame (Some (customSettings content)) freshService).

(** Every character of a string satisfies [f]. *)
Fixpoint all_chars (f : ascii -> bool) (s : string) : bool :=
  match s with
  | EmptyString => true
  | String c r => f c && all_chars f r
  end.

Definition is_ascii_upper (c : ascii) : bool :=
  let n := nat_of_ascii c in (65 <=? n)%nat && (n <=? 90)%nat.

(** A character a custom-text word can hold: no upper-case letter, no white
    space, none of the stripped punctuation. *)
Definition tokenChar (c : ascii) : bool :=
  negb (is_ascii_upper c) && negb (is_js_space c) && negb (is_stripped c).

(** ** [GameService] signals and sessions ([src/app/services/game.ts]) *)

(** [accuracyPercentage] (a [computed] signal of [GameService]) *)
Definition accuracyPercentage (g : GameState) : Z :=
  if 0 <? totalWords g
  then Math_round (fl (fl (inject_Z (correctWords g) / inject_Z (totalWords g)) * 100))
  else 100.

(** [wpmCurrent] (a [computed] signal of [GameService]) *)
Definition wpmCurrent (s : Service) : Z :=
  let g := gameState s in
  let timeElapsed := fl (inject_Z (gameDuration (currentSettings s) - timeRemaining g) / 60) in
  if Qltb 0 timeElapsed then Math_round (fl (inject_Z (correctWords g) / timeElapsed)) else 0.

Inductive Op :=
| OpStartGame (settings : option GameSettings)
| OpPauseGame
| OpEndGame
| OpResetGame
| OpProcessInput (input : string)
| OpSkipWord
| OpTick (t : Tick)
| OpTimeout.

Definition step (o : Op) : M unit :=
  match o with
  | OpStartGame c => startGame c
  | OpPauseGame => pauseGame
  | OpEndGame => endGame
  | OpResetGame => resetGame
  | OpProcessInput i => _ <- processInput i;; ret tt
  | OpSkipWord => skipWord
  | OpTick t => tick t
  | OpTimeout => timeoutTick
  end.

Fixpoint runOps (os : list Op) : M unit :=
  match os with
  | [] => ret tt
  | o :: rest => step o;; runOps rest
  end.

Definition isRestart (o : Op) : bool :=
  match o with OpStartGame _ | OpResetGame => true | _ => false end.

Definition sessionInvariant (g : GameState) : Prop :=
  0 <= streak g <= correctWords g /\ 0 <= mistakes g /\
  correctWords g + mistakes g = totalWords g /\
  Z.of_nat (length (wordsTyped g)) = totalWords g /\
  (multiplier g == specMultiplier (streak g))%Q /\ 0 <= score g.

Definition counters (g : GameState) :=
  (score g, correctWords g, totalWords g, mistakes g, streak g, multiplier g, wordsTyped g).

Definition correctStep (g g' : GameState) : Prop :=
  exists w, streak g' = streak g + 1 /\ correctWords g' = correctWords g + 1 /\
  totalWords g' = totalWords g + 1 /\ mistakes g' = mistakes g /\
  wordsTyped g' = app (wordsTyped g) [w] /\
  (multiplier g' == specMultiplier (streak g'))%Q /\
  (0 <= streak g -> (0 <= multiplier g)%Q -> score g <= score g').

Definition incorrectStep (g g' : GameState) : Prop :=
  exists w, streak g' = 0 /\ multiplier g' = 1%Q /\ correctWords g' = correctWords g /\
  totalWords g' = totalWords g + 1 /\ mistakes g' = mistakes g + 1 /\
  wordsTyped g' = app (wordsTyped g) [w] /\ score g' = score g.

Definition counterStep (g g' : GameState) : Prop :=
  counters g' = counters g \/ correctStep g g' \/ incorrectStep g g'.

(** [serveCustomWords k]: [k] successive calls of [getNextCustomWord]. *)
Fixpoint serveCustomWords (k : nat) : M (list string) :=
  match k with
  | O => ret []
  | S k' => w <- getNextCustomWord;; ws <- serveCustomWords k';; ret (w :: ws)
  end.

(** ** List helpers *)

Definition sumZ (l : list Z) : Z := fold_right Z.add 0 l.

(** [x] comes before [y] in an order by decreasing [f]. *)
Definition desc_by {A : Type} (f : A -> Z) (x y : A) : Prop := f y <= f x.

(** ** [WordService] word selection ([src/app/services/custom-text.ts]) *)

Module WordService.

Record WordCategory := mkWordCategory {
  name : string;
  words : list string
}.

(** [DifficultyLevel]; its [name] is [levelName] here, as a record field
    name can be declared once, and [wordLength: { min, max }] is the pair
    [minLength], [maxLength]. *)
Record DifficultyLevel := mkDifficultyLevel {
  levelName : string;
  minLength : Z;
  maxLength : Z;
  timePerWord : Q;
  description : string
}.

Definition categories : list WordCategory :=
  [ mkWordCategory "Basic"
     ["the"; "and"; "for"; "are"; "but"; "not"; "you"; "all"; "can"; "had"; "her";
      "was"; "one"; "our"; "out"; "day"; "get"; "has"; "him"; "his"; "how"; "man";
      "new"; "now"; "old"; "see"; "two"; "way"; "who"; "boy"; "did"; "its"; "let";
      "put"; "say"; "she"; "too"; "use"];
    mkWordCategory "Common"
     ["about"; "after"; "again"; "before"; "being"; "below"; "between"; "both";
      "during"; "each"; "few"; "from"; "further"; "here"; "how"; "other"; "own";
      "same"; "should"; "such"; "than"; "them"; "very"; "were"; "what"; "when";
      "where"; "which"; "while"; "with"; "would"; "your"];
    mkWordCategory "Programming"
     ["function"; "variable"; "array"; "object"; "string"; "number"; "boolean";
      "interface"; "class"; "method"; "property"; "return"; "import"; "export";
      "component"; "service"; "module"; "package"; "library"; "framework";
      "algorithm"; "database"; "server"; "client"; "response"; "request";
      "parameter"; "argument"; "callback"; "promise"; "async"; "await"];
    mkWordCategory "Advanced"
     ["development"; "implementation"; "architecture"; "optimization";
      "performance"; "scalability"; "maintainability"; "responsibility";
      "configuration"; "authentication"; "authorization"; "infrastructure";
      "documentation"; "specification"; "integration"; "deployment"; "environment";
      "orchestration"; "containerization"; "virtualization"; "microservices";
      "monolithic"; "distributed"; "synchronization"; "asynchronous"] ].

Definition difficultyLevels : list DifficultyLevel :=
  [ mkDifficultyLevel "Easy" 2 5 (4 # 1) "Short words with plenty of time";
    mkDifficultyLevel "Medium" 4 8 (5 # 2) "Medium words with moderate time";
    mkDifficultyLevel "Hard" 6 12 (3 # 2) "Long words with limited time";
    mkDifficultyLevel "Expert" 8 15 (1 # 1) "Complex words with minimal time" ].

(** [this.categories.find(cat => cat.name === category)] *)
Definition findCategory (category : string) : option WordCategory :=
  find (fun c => String.eqb (name c) category) categories.

(** [this.difficultyLevels.find(diff => diff.name === difficulty)] *)
Definition findDifficulty (difficulty : string) : option DifficultyLevel :=
  find (fun d => String.eqb (levelName d) difficulty) difficultyLevels.

(** The words of the category whose length is in the level's range. *)
Definition filteredWords (categoryData : WordCategory) (difficultyData : DifficultyLevel)
  : list string :=
  filter (fun w => (minLength difficultyData <=? js_length w)
                   && (js_length w <=? maxLength difficultyData))
    (words categoryData).

(** [list[Math.floor(random * list.length)]] for the draw [random] of
    [Math.random()]; an index out of range (never reached for a draw in
    [0, 1)) would read [undefined], here the empty string. The product is
    taken exactly: for a double draw below 1 the rounded product is also
    below the length, so rounding can only move which index a particular
    draw selects. *)
Definition pick (random : Q) (l : list string) : string :=
  nth (Z.to_nat (Math_floor (random * inject_Z (Z.of_nat (length l)))%Q)) l "".

(** [getRandomWord(category, difficulty)] with the draw [random]; a thrown
    [Error] is [inl] of its message. *)
Definition getRandomWord (random : Q) (category difficulty : string) : string + string :=
  match findCategory category with
  | None => inl ("Category '" ++ category ++ "' not found")
  | Some categoryData =>
      match findDifficulty difficulty with
      | None => inl ("Difficulty '" ++ difficulty ++ "' not found")
      | Some difficultyData =>
          let fw := filteredWords categoryData difficultyData in
          if (length fw =? 0)%nat then inr (pick random (words categoryData))
          else inr (pick random fw)
      end
  end.

End WordService.

(** ** [HeatMapService] ([src/app/services/error-feedback.ts]) *)

Module HeatMap.

Record HeatKeyInfo := mkHeatKeyInfo {
  hk_finger : string;
  hk_row : Z;
  hk_col : Z;
  hk_difficulty : Z
}.

(** The own properties of [HeatMapService.keyboardLayout], in source order. *)
Definition keyboardLayout : list (string * HeatKeyInfo) :=
  [ ("1", mkHeatKeyInfo "left-pinky" 0 0 3); ("2", mkHeatKeyInfo "left-ring" 0 1 3);
    ("3", mkHeatKeyInfo "left-middle" 0 2 3); ("4", mkHeatKeyInfo "left-index" 0 3 3);
    ("5", mkHeatKeyInfo "left-index" 0 4 3); ("6", mkHeatKeyInfo "right-index" 0 5 3);
    ("7", mkHeatKeyInfo "right-index" 0 6 3); ("8", mkHeatKeyInfo "right-middle" 0 7 3);
    ("9", mkHeatKeyInfo "right-ring" 0 8 3); ("0", mkHeatKeyInfo "right-pinky" 0 9 3);
    ("q", mkHeatKeyInfo "left-pinky" 1 0 2); ("w", mkHeatKeyInfo "left-ring" 1 1 2);
    ("e", mkHeatKeyInfo "left-middle" 1 2 1); ("r", mkHeatKeyInfo "left-index" 1 3 1);
    ("t", mkHeatKeyInfo "left-index" 1 4 2); ("y", mkHeatKeyInfo "right-index" 1 5 2);
    ("u", mkHeatKeyInfo "right-index" 1 6 2); ("i", mkHeatKeyInfo "right-middle" 1 7 1);
    ("o", mkHeatKeyInfo "right-ring" 1 8 1); ("p", mkHeatKeyInfo "right-pinky" 1 9 2);
    ("a", mkHeatKeyInfo "left-pinky" 2 0 1); ("s", mkHeatKeyInfo "left-ring" 2 1 1);
    ("d", mkHeatKeyInfo "left-middle" 2 2 1); ("f", mkHeatKeyInfo "left-index" 2 3 1);
    ("g", mkHeatKeyInfo "left-index" 2 4 1); ("h", mkHeatKeyInfo "right-index" 2 5 1);
    ("j", mkHeatKeyInfo "right-index" 2 6 1); ("k", mkHeatKeyInfo "right-middle" 2 7 1);
    ("l", mkHeatKeyInfo "right-ring" 2 8 1);
    ("z", mkHeatKeyInfo "left-pinky" 3 0 2); ("x", mkHeatKeyInfo "left-ring" 3 1 2);
    ("c", mkHeatKeyInfo "left-middle" 3 2 2); ("v", mkHeatKeyInfo "left-index" 3 3 2);
    ("b", mkHeatKeyInfo "left-index" 3 4 2); ("n", mkHeatKeyInfo "right-index" 3 5 2);
    ("m", mkHeatKeyInfo "right-index" 3 6 2);
    (" ", mkHeatKeyInfo "thumbs" 4 4 1); (".", mkHeatKeyInfo "right-ring" 3 8 2);
    (",", mkHeatKeyInfo "right-middle" 3 7 2) ].

(** The members of [Object.prototype], as for [ErrorFeedbackService]'s
    table; these values have no [finger] and no [position]. *)
Definition objectPrototypeMembers : list string := ErrorFeedback.objectPrototypeMembers.

Inductive LayoutValue :=
| Own (info : HeatKeyInfo)
| Inherited (name : string).

(** [this.keyboardLayout[k]], [undefined] as [None]. *)
Definition layoutGet (k : string) : option LayoutValue :=
  match find (fun e => String.eqb (fst e) k) keyboardLayout with
  | Some (_, info) => Some (Own info)
  | None => if existsb (String.eqb k) objectPrototypeMembers then Some (Inherited k) else None
  end.

(** [keyInfo.finger] and [keyInfo.position]; [undefined] as [None]. *)
Definition lv_finger (v : LayoutValue) : option string :=
  match v with Own i => Some (hk_finger i) | Inherited _ => None end.
Definition lv_position (v : LayoutValue) : option (Z * Z) :=
  match v with Own i => Some (hk_row i, hk_col i) | Inherited _ => None end.

Record KeystrokeData := mkKeystrokeData {
  key : string;
  attempts : Z;
  errors : Z;
  averageTime : Q;
  totalTime : Q;
  finger : option string;
  position : option (Z * Z)
}.

Record TypingError := mkTypingError {
  timestamp : Z;
  expectedKey : string;
  actualKey : string;
  word : string;
  te_position : Q;
  timeTaken : Q
}.

Record HeatMapData := mkHeatMapData {
  keystroke : list KeystrokeData;
  hm_errors : list TypingError;
  lastUpdated : Z;
  totalKeystrokes : Z;
  totalErrors : Z;
  sessionId : string
}.

(** [getInitialHeatMapData()] *)
Definition getInitialHeatMapData (nowMs : Z) : HeatMapData :=
  mkHeatMapData [] [] nowMs 0 0 "".

(** [data.keystroke.find(k => k.key === lowerKey)], then the found entry is
    updated in place, or the fresh entry is pushed and updated: the list
    afterwards. *)
Fixpoint bumpKeystroke (lowerKey : string) (f : KeystrokeData -> KeystrokeData)
    (fresh : KeystrokeData) (l : list KeystrokeData) : list KeystrokeData :=
  match l with
  | [] => [f fresh]
  | k :: rest =>
      if String.eqb (key k) lowerKey then f k :: rest
      else k :: bumpKeystroke lowerKey f fresh rest
  end.

(** The update [recordKeystroke] applies to the entry. *)
Definition updateKeystroke (timeTaken : Q) (isCorrect : bool) (k : KeystrokeData) : KeystrokeData :=
  let attempts' := attempts k + 1 in
  let totalTime' := fl (totalTime k + timeTaken) in
  mkKeystrokeData (key k) attempts'
    (if isCorrect then errors k else errors k + 1)
    (fl (totalTime' / inject_Z attempts')) totalTime' (finger k) (position k).

(** [expectedKey && word !== undefined && position !== undefined] *)
Definition errorDetailsGiven (expectedKey' word' : option string) (position' : option Q) : bool :=
  match expectedKey', word', position' with
  | Some e, Some _, Some _ => negb (String.eqb e "")
  | _, _, _ => false
  end.

(** [recordKeystroke(key, timeTaken, isCorrect, expectedKey?, word?, position?)];
    both reads of [Date.now()] give [nowMs]. The write to [localStorage] is
    not part of the state. *)
Definition recordKeystroke (nowMs : Z) (k : string) (timeTaken' : Q)
    (isCorrect : bool) (expectedKey' word' : option string) (position' : option Q)
    (data : HeatMapData) : HeatMapData :=
  let lowerKey := toLowerCase k in
  match layoutGet lowerKey with
  | None => data
  | Some keyInfo =>
      let fresh := mkKeystrokeData lowerKey 0 0 0 0 (lv_finger keyInfo) (lv_position keyInfo) in
      let ks := bumpKeystroke lowerKey (updateKeystroke timeTaken' isCorrect) fresh (keystroke data) in
      let errs :=
        if negb isCorrect && errorDetailsGiven expectedKey' word' position' then
          match expectedKey', word', position' with
          | Some e, Some w, Some p =>
              app (hm_errors data) [mkTypingError nowMs (toLowerCase e) lowerKey w p timeTaken']
          | _, _, _ => hm_errors data
          end
        else hm_errors data in
      mkHeatMapData ks errs nowMs (totalKeystrokes data + 1)
        (if isCorrect then totalErrors data else totalErrors data + 1) (sessionId data)
  end.

(** [getKeyAccuracy(key)] *)
Definition getKeyAccuracy (k : string) (data : HeatMapData) : Z :=
  let lowerKey := toLowerCase k in
  match find (fun x => String.eqb (key x) lowerKey) (keystroke data) with
  | None => 100
  | Some x =>
      if attempts x =? 0 then 100
      else Math_round (fl (fl (inject_Z (attempts x - errors x) / inject_Z (attempts x)) * 100))
  end.

End HeatMap.

Definition heatInvariant (data : HeatMap.HeatMapData) : Prop :=
  HeatMap.totalKeystrokes data = sumZ (map HeatMap.attempts (HeatMap.keystroke data)) /\
  HeatMap.totalErrors data = sumZ (map HeatMap.errors (HeatMap.keystroke data)) /\
  Z.of_nat (length (HeatMap.hm_errors data)) <= HeatMap.totalErrors data /\
  NoDup (map HeatMap.key (HeatMap.keystroke data)) /\
  Forall (fun k => 0 <= HeatMap.errors k <= HeatMap.attempts k /\ 1 <= HeatMap.attempts k /\
                   toLowerCase (HeatMap.key k) = HeatMap.key k /\
                   HeatMap.layoutGet (HeatMap.key k) <> None /\
                   HeatMap.averageTime k = fl (HeatMap.totalTime k / inject_Z (HeatMap.attempts k)))
         (HeatMap.keystroke data).

Definition findKey (lk : string) (l : list HeatMap.KeystrokeData) : option HeatMap.KeystrokeData :=
  find (fun x => String.eqb (HeatMap.key x) lk) l.

(** * Properties *)

(** ** Binary64 rounding *)

Lemma pow2_pos (e : Z) : (0 < pow2 e)%Q.
Proof. apply Qpower_0_lt. reflexivity. Qed.

Lemma pow2_add (a b : Z) : (pow2 (a + b) == pow2 a * pow2 b)%Q.
Proof. apply Qpower_plus. discriminate. Qed.

Lemma pow2_le (a b : Z) : a <= b -> (pow2 a <= pow2 b)%Q.
Proof. intros H. apply Qpower_le_compat_l; [exact H|discriminate]. Qed.

Lemma pow2_lt (a b : Z) : a < b -> (pow2 a < pow2 b)%Q.
Proof. intros H. apply Qpower_lt_compat_l; [exact H|reflexivity]. Qed.

Lemma pow2_lt_inv (a b : Z) : (pow2 a < pow2 b)%Q -> a < b.
Proof. intros H. exact (Qpower_lt_compat_l_inv _ _ _ H ltac:(reflexivity)). Qed.

Lemma pow2_le_inv (a b : Z) : (pow2 a <= pow2 b)%Q -> a <= b.
Proof. intros H. exact (Qpower_le_compat_l_inv _ _ _ H ltac:(reflexivity)). Qed.

Lemma pow2_Z (e : Z) : 0 <= e -> (pow2 e == inject_Z (2 ^ e))%Q.
Proof. intros H. unfold pow2. rewrite Zpower_Qpower by exact H. reflexivity. Qed.

Lemma pow2_frac (a b : Z) : 0 <= a -> 0 <= b ->
  (pow2 (a - b) == (2 ^ a # Z.to_pos (2 ^ b)))%Q.
Proof.
  intros Ha Hb. unfold Z.sub. rewrite pow2_add. unfold pow2 at 2. rewrite Qpower_opp.
  fold (pow2 b). rewrite (pow2_Z a Ha), (pow2_Z b Hb).
  assert (Hp : 0 < 2 ^ b) by (apply Z.pow_pos_nonneg; lia).
  unfold Qeq, Qmult, Qinv, inject_Z; simpl.
  destruct (2 ^ b) as [|p|p] eqn:E; try lia. simpl. lia.
Qed.

Lemma Qlog2_floor_spec (x : Q) : ~ (x == 0)%Q ->
  (pow2 (Qlog2_floor x) <= Qabs x < pow2 (Qlog2_floor x + 1))%Q.
Proof.
  destruct x as [n d]. intros Hx.
  assert (Hn : n <> 0) by (intros ->; apply Hx; reflexivity).
  unfold Qlog2_floor. cbn [Qnum Qden].
  change (Qabs (n # d)) with (Z.abs n # d).
  set (a := Z.abs n). set (A := Z.log2 a). set (B := Z.log2 (Z.pos d)).
  assert (Ha : 0 < a) by (unfold a; lia).
  destruct (Z.log2_spec a Ha) as [Ha1 Ha2]. fold A in Ha1, Ha2.
  destruct (Z.log2_spec (Z.pos d) ltac:(lia)) as [Hd1 Hd2]. fold B in Hd1, Hd2.
  assert (HA : 0 <= A) by apply Z.log2_nonneg.
  assert (HB : 0 <= B) by apply Z.log2_nonneg.
  rewrite Z.pow_succ_r in Ha2, Hd2 by exact HA || exact HB.
  assert (PB : 0 < 2 ^ B) by (apply Z.pow_pos_nonneg; lia).
  assert (PA : 0 < 2 ^ A) by (apply Z.pow_pos_nonneg; lia).
  assert (H1 : ((a # d) < pow2 (A - B + 1))%Q).
  { replace (A - B + 1) with ((A + 1) - B) by ring. rewrite pow2_frac by lia.
    unfold Qlt; cbn [Qnum Qden]. rewrite Z2Pos.id by exact PB.
    rewrite Z.pow_add_r by lia. change (2 ^ 1) with 2. nia. }
  assert (H2 : (pow2 (A - B - 1) < (a # d))%Q).
  { replace (A - B - 1) with (A - (B + 1)) by ring. rewrite pow2_frac by lia.
    unfold Qlt; cbn [Qnum Qden]. rewrite Z2Pos.id by (apply Z.pow_pos_nonneg; lia).
    rewrite Z.pow_add_r by lia. change (2 ^ 1) with 2. nia. }
  destruct (Qle_bool (pow2 (A - B)) (a # d)) eqn:E.
  - apply Qle_bool_iff in E. split; [exact E|exact H1].
  - split.
    + apply Qlt_le_weak. exact H2.
    + replace (A - B - 1 + 1) with (A - B) by ring.
      apply Qnot_le_lt. intros C. apply Qle_bool_iff in C. congruence.
Qed.

Lemma round_even_cases (m : Q) :
  (round_even m = Qfloor m /\ (m - inject_Z (Qfloor m) <= 1 # 2)%Q) \/
  (round_even m = Qfloor m + 1 /\ (1 # 2 <= m - inject_Z (Qfloor m))%Q).
Proof.
  unfold round_even.
  destruct (m - inject_Z (Qfloor m) ?= 1 # 2)%Q eqn:C.
  - apply Qeq_alt in C. destruct (Z.even (Qfloor m)).
    + left. split; [reflexivity|]. rewrite C. apply Qle_refl.
    + right. split; [reflexivity|]. rewrite C. apply Qle_refl.
  - apply Qlt_alt in C. left. split; [reflexivity|]. apply Qlt_le_weak. exact C.
  - apply Qgt_alt in C. right. split; [reflexivity|]. apply Qlt_le_weak. exact C.
Qed.

Lemma floor_bounds (m : Q) :
  (inject_Z (Qfloor m) <= m)%Q /\ (m < inject_Z (Qfloor m) + 1)%Q.
Proof.
  split; [apply Qfloor_le|]. pose proof (Qlt_floor m) as H.
  rewrite inject_Z_plus in H. exact H.
Qed.

Lemma round_even_int (n : Z) : round_even (inject_Z n) = n.
Proof.
  unfold round_even. rewrite Qfloor_Z.
  replace (inject_Z n - inject_Z n ?= 1 # 2)%Q with Lt; [reflexivity|].
  symmetry. apply (proj1 (Qlt_alt _ _)). lra.
Qed.

Lemma round_even_le (m : Q) (N : Z) : (m <= inject_Z N)%Q -> round_even m <= N.
Proof.
  intros H. destruct (floor_bounds m) as [F1 F2].
  assert (Hf : Qfloor m <= N) by (rewrite <- (Qfloor_Z N); apply Qfloor_resp_le; exact H).
  destruct (round_even_cases m) as [[-> _]|[-> C]]; [exact Hf|].
  destruct (Z.eq_dec (Qfloor m) N) as [E|E]; [|lia].
  exfalso. rewrite E in C. lra.
Qed.

Lemma round_even_ge (m : Q) (N : Z) : (inject_Z N <= m)%Q -> N <= round_even m.
Proof.
  intros H.
  assert (Hf : N <= Qfloor m) by (rewrite <- (Qfloor_Z N); apply Qfloor_resp_le; exact H).
  destruct (round_even_cases m) as [[-> _]|[-> _]]; lia.
Qed.

Lemma round_even_err (m : Q) :
  (Qabs (inject_Z (round_even m) - m) <= 1 # 2)%Q.
Proof.
  destruct (floor_bounds m) as [F1 F2]. apply Qabs_Qle_condition.
  destruct (round_even_cases m) as [[-> C]|[-> C]].
  - split; lra.
  - rewrite inject_Z_plus. change (inject_Z 1) with 1%Q. split; lra.
Qed.

Ltac qcmp H :=
  match type of H with
  | (?p ?= ?q)%Q = Eq => apply (proj2 (Qeq_alt p q)) in H
  | (?p ?= ?q)%Q = Lt => apply (proj2 (Qlt_alt p q)) in H
  | (?p ?= ?q)%Q = Gt => apply (proj2 (Qgt_alt p q)) in H
  end.

Lemma round_even_mono (m m' : Q) : (m <= m')%Q -> round_even m <= round_even m'.
Proof.
  intros H.
  assert (Hf : Qfloor m <= Qfloor m') by (apply Qfloor_resp_le; exact H).
  destruct (Z.eq_dec (Qfloor m) (Qfloor m')) as [E|E].
  - unfold round_even. rewrite <- E.
    destruct (m - inject_Z (Qfloor m) ?= 1 # 2)%Q eqn:C;
    destruct (m' - inject_Z (Qfloor m) ?= 1 # 2)%Q eqn:C';
    try (destruct (Z.even (Qfloor m))); try lia;
    qcmp C; qcmp C'; exfalso; lra.
  - destruct (round_even_cases m) as [[-> _]|[-> _]];
    destruct (round_even_cases m') as [[-> _]|[-> _]]; lia.
Qed.

Lemma round_even_comp (m m' : Q) : (m == m')%Q -> round_even m = round_even m'.
Proof.
  intros H. unfold round_even.
  assert (F : Qfloor m = Qfloor m') by (apply Qfloor_comp; exact H).
  rewrite <- F.
  assert (C : (m - inject_Z (Qfloor m) ?= 1 # 2)%Q = (m' - inject_Z (Qfloor m) ?= 1 # 2)%Q)
    by (apply Qcompare_comp; [apply Qplus_comp; [exact H|reflexivity]|reflexivity]).
  rewrite C. reflexivity.
Qed.

Lemma fl_eq (x : Q) : ~ (x == 0)%Q ->
  (fl x == inject_Z (round_even (x / pow2 (ulp_exp x))) * pow2 (ulp_exp x))%Q.
Proof.
  intros H. unfold fl. destruct (Qeq_bool x 0) eqn:E.
  - apply Qeq_bool_iff in E. contradiction.
  - apply Qred_correct.
Qed.

Lemma fl_zero (x : Q) : (x == 0)%Q -> fl x = 0%Q.
Proof. intros H. unfold fl. apply Qeq_bool_iff in H. rewrite H. reflexivity. Qed.

Lemma inject_Z_nonneg (n : Z) : 0 <= n -> (0 <= inject_Z n)%Q.
Proof. intros H. change 0%Q with (inject_Z 0). rewrite <- Zle_Qle. exact H. Qed.

Lemma fl_le_of (x : Q) (N : Z) : ~ (x == 0)%Q ->
  (x <= inject_Z N * pow2 (ulp_exp x))%Q -> (fl x <= inject_Z N * pow2 (ulp_exp x))%Q.
Proof.
  intros Hx H. rewrite fl_eq by exact Hx.
  pose proof (pow2_pos (ulp_exp x)) as P.
  apply Qmult_le_compat_r; [|apply Qlt_le_weak; exact P].
  rewrite <- Zle_Qle. apply round_even_le.
  apply Qle_shift_div_r; [exact P|exact H].
Qed.

Lemma fl_ge_of (x : Q) (N : Z) : ~ (x == 0)%Q ->
  (inject_Z N * pow2 (ulp_exp x) <= x)%Q -> (inject_Z N * pow2 (ulp_exp x) <= fl x)%Q.
Proof.
  intros Hx H. rewrite fl_eq by exact Hx.
  pose proof (pow2_pos (ulp_exp x)) as P.
  apply Qmult_le_compat_r; [|apply Qlt_le_weak; exact P].
  rewrite <- Zle_Qle. apply round_even_ge.
  apply Qle_shift_div_l; [exact P|exact H].
Qed.

Lemma fl_nonneg (x : Q) : (0 <= x)%Q -> (0 <= fl x)%Q.
Proof.
  intros H. destruct (Qeq_dec x 0) as [E|E].
  - rewrite (fl_zero x E). apply Qle_refl.
  - pose proof (fl_ge_of x 0 E) as G. rewrite Qmult_0_l in G. apply G. exact H.
Qed.

Lemma fl_nonpos (x : Q) : (x <= 0)%Q -> (fl x <= 0)%Q.
Proof.
  intros H. destruct (Qeq_dec x 0) as [E|E].
  - rewrite (fl_zero x E). apply Qle_refl.
  - pose proof (fl_le_of x 0 E) as G. rewrite Qmult_0_l in G. apply G. exact H.
Qed.

Lemma pow2_sub_mul (a b : Z) : (pow2 (a - b) * pow2 b == pow2 a)%Q.
Proof. rewrite <- pow2_add. replace (a - b + b) with a by ring. reflexivity. Qed.

Lemma Qlog2_floor_pos (x : Q) : (0 < x)%Q ->
  (pow2 (Qlog2_floor x) <= x < pow2 (Qlog2_floor x + 1))%Q.
Proof.
  intros H. assert (Hx : ~ (x == 0)%Q) by (intros E; rewrite E in H; discriminate).
  pose proof (Qlog2_floor_spec x Hx) as S. rewrite Qabs_pos in S by (apply Qlt_le_weak; exact H).
  exact S.
Qed.

Lemma fl_mono (x y : Q) : (0 <= x)%Q -> (x <= y)%Q -> (fl x <= fl y)%Q.
Proof.
  intros H0 Hxy. destruct (Qeq_dec x 0) as [E|E].
  - rewrite (fl_zero x E). apply fl_nonneg. lra.
  - assert (Px : (0 < x)%Q) by (apply Qle_lt_or_eq in H0 as [H0|H0]; [exact H0|symmetry in H0; contradiction]).
    assert (Py : (0 < y)%Q) by lra.
    assert (Ey : ~ (y == 0)%Q) by (intros C; rewrite C in Py; discriminate).
    destruct (Qlog2_floor_pos x Px) as [Sx1 Sx2].
    destruct (Qlog2_floor_pos y Py) as [Sy1 Sy2].
    assert (Le : Qlog2_floor x <= Qlog2_floor y).
    { destruct (Z.le_gt_cases (Qlog2_floor x) (Qlog2_floor y)) as [L|L]; [exact L|].
      exfalso. pose proof (pow2_le (Qlog2_floor y + 1) (Qlog2_floor x) ltac:(lia)). lra. }
    destruct (Z.eq_dec (ulp_exp x) (ulp_exp y)) as [Eq|Ne].
    + rewrite (fl_eq x E), (fl_eq y Ey), <- Eq.
      pose proof (pow2_pos (ulp_exp x)) as P.
      apply Qmult_le_compat_r; [|apply Qlt_le_weak; exact P].
      rewrite <- Zle_Qle. apply round_even_mono.
      apply Qmult_le_compat_r; [exact Hxy|]. apply Qlt_le_weak, Qinv_lt_0_compat, P.
    + set (ey := Qlog2_floor y) in *. set (ex := Qlog2_floor x) in *.
      assert (Hq : ulp_exp y = ey - 52 /\ ulp_exp x < ey - 52) by (unfold ulp_exp in *; lia).
      destruct Hq as [Hqy Hqx].
      apply (Qle_trans _ (pow2 ey)).
      * rewrite <- (pow2_sub_mul ey (ulp_exp x)), (pow2_Z (ey - ulp_exp x)) by lia.
        apply fl_le_of; [exact E|].
        rewrite <- (pow2_Z (ey - ulp_exp x)) by lia. rewrite pow2_sub_mul.
        pose proof (pow2_le (ex + 1) ey ltac:(unfold ulp_exp in *; lia)). lra.
      * rewrite <- (pow2_sub_mul ey (ulp_exp y)) at 1.
        rewrite (pow2_Z (ey - ulp_exp y)) by lia.
        apply fl_ge_of; [exact Ey|].
        rewrite <- (pow2_Z (ey - ulp_exp y)) by lia. rewrite pow2_sub_mul. exact Sy1.
Qed.

Lemma Qlog2_floor_lt (x : Q) (k : Z) : ~ (x == 0)%Q -> (Qabs x < pow2 k)%Q -> Qlog2_floor x < k.
Proof.
  intros Hx H. destruct (Qlog2_floor_spec x Hx) as [S _].
  apply pow2_lt_inv. lra.
Qed.

Lemma fl_exact (x : Q) (n k : Z) :
  (x == inject_Z n * pow2 k)%Q -> Z.abs n < 2 ^ 53 -> -1074 <= k -> (fl x == x)%Q.
Proof.
  intros Hx Hn Hk. destruct (Z.eq_dec n 0) as [->|Nz].
  - rewrite Qmult_0_l in Hx. rewrite (fl_zero x Hx), Hx. reflexivity.
  - assert (E : ~ (x == 0)%Q).
    { intros C. rewrite C in Hx. symmetry in Hx. apply Qmult_integral in Hx as [C1|C1].
      - apply Nz. unfold Qeq in C1. simpl in C1. lia.
      - pose proof (pow2_pos k). rewrite C1 in H. discriminate. }
    assert (Hq : ulp_exp x <= k).
    { assert (L : Qlog2_floor x < 53 + k).
      { apply Qlog2_floor_lt; [exact E|].
        rewrite Hx, Qabs_Qmult, (Qabs_pos (pow2 k)) by (apply Qlt_le_weak, pow2_pos).
        rewrite pow2_add, (pow2_Z 53) by lia.
        apply Qmult_lt_compat_r; [apply pow2_pos|].
        change (Qabs (inject_Z n)) with (inject_Z (Z.abs n)). rewrite <- Zlt_Qlt. exact Hn. }
      unfold ulp_exp. lia. }
    rewrite (fl_eq x E). set (u := ulp_exp x) in *.
    assert (M : (x / pow2 u == inject_Z (n * 2 ^ (k - u)))%Q).
    { rewrite Hx, inject_Z_mult, <- pow2_Z by lia.
      rewrite <- (pow2_sub_mul k u) at 1.
      field. pose proof (pow2_pos u). intros C. rewrite C in H. discriminate. }
    rewrite (round_even_comp _ _ M), round_even_int.
    rewrite inject_Z_mult, <- pow2_Z by lia. rewrite Hx, <- Qmult_assoc, pow2_sub_mul.
    reflexivity.
Qed.

Lemma fl_err (x : Q) : ~ (x == 0)%Q -> (Qabs (fl x - x) <= pow2 (ulp_exp x) * (1 # 2))%Q.
Proof.
  intros E. rewrite (fl_eq x E).
  set (P := pow2 (ulp_exp x)). assert (PP : (0 < P)%Q) by apply pow2_pos.
  set (m := (x / P)%Q).
  assert (Hx : (x == m * P)%Q) by (unfold m; field; intros C; rewrite C in PP; discriminate).
  setoid_replace (inject_Z (round_even m) * P - x)%Q with ((inject_Z (round_even m) - m) * P)%Q
    by (rewrite Hx; ring).
  rewrite Qabs_Qmult, (Qabs_pos P) by (apply Qlt_le_weak; exact PP).
  rewrite Qmult_comm. apply Qmult_le_l; [exact PP|]. apply round_even_err.
Qed.

Lemma ulp_exp_le (x : Q) (k : Z) : ~ (x == 0)%Q -> (Qabs x < pow2 k)%Q ->
  ulp_exp x <= Z.max (k - 53) (-1074).
Proof. intros E H. pose proof (Qlog2_floor_lt x k E H). unfold ulp_exp. lia. Qed.

Lemma Qfloor_unique (y : Q) (n : Z) :
  (inject_Z n <= y)%Q -> (y < inject_Z n + 1)%Q -> Qfloor y = n.
Proof.
  intros H1 H2. destruct (floor_bounds y) as [F1 F2].
  assert (A : n <= Qfloor y) by (rewrite <- (Qfloor_Z n); apply Qfloor_resp_le; exact H1).
  assert (B : Qfloor y < n + 1).
  { rewrite Zlt_Qlt, inject_Z_plus. change (inject_Z 1) with 1%Q. lra. }
  lia.
Qed.

Lemma fl_div_floor (k d : Z) : 0 <= k < 2 ^ 49 -> 1 <= d <= 31 ->
  Qfloor (fl (inject_Z k / inject_Z d)) = k / d.
Proof.
  intros Hk Hd.
  assert (Pd : (0 < inject_Z d)%Q) by (change 0%Q with (inject_Z 0); rewrite <- Zlt_Qlt; lia).
  assert (Dk : k = d * (k / d) + k mod d) by (apply Z.div_mod; lia).
  assert (Rm : 0 <= k mod d < d) by (apply Z.mod_pos_bound; lia).
  assert (Hq : 0 <= k / d <= k) by (split; [apply Z.div_pos; lia|apply Z.div_le_upper_bound; nia]).
  set (q := k / d) in *. set (r := k mod d) in *.
  assert (Hx : (inject_Z k / inject_Z d == inject_Z q + inject_Z r / inject_Z d)%Q).
  { rewrite Dk at 1. rewrite inject_Z_plus, inject_Z_mult. field.
    intros C; rewrite C in Pd; discriminate. }
  destruct (Z.eq_dec r 0) as [R0|R0].
  - assert (X : (inject_Z k / inject_Z d == inject_Z q * pow2 0)%Q).
    { rewrite Hx, R0. change (pow2 0) with 1%Q. field. intros C; rewrite C in Pd; discriminate. }
    rewrite (Qfloor_comp _ _ (fl_exact _ q 0 X ltac:(rewrite Z.abs_eq by lia; lia) ltac:(lia))).
    apply Qfloor_unique; rewrite Hx, R0; change (inject_Z 0) with 0%Q;
      unfold Qdiv; rewrite Qmult_0_l; lra.
  - assert (R1 : (1 # 32 < inject_Z r / inject_Z d)%Q).
    { apply Qlt_shift_div_l; [exact Pd|]. unfold Qlt, Qmult, inject_Z; cbn [Qnum Qden].
      rewrite ?Pos.mul_1_r. lia. }
    assert (R2 : (inject_Z r / inject_Z d < 31 # 32)%Q).
    { apply Qlt_shift_div_r; [exact Pd|]. unfold Qlt, Qmult, Qminus, Qplus, Qopp, inject_Z; cbn [Qnum Qden].
      rewrite ?Pos.mul_1_r. lia. }
    pose proof (inject_Z_nonneg q (proj1 Hq)) as Q0.
    assert (E : ~ (inject_Z k / inject_Z d == 0)%Q).
    { intros C. rewrite Hx in C. lra. }
    assert (B : (Qabs (inject_Z k / inject_Z d) < pow2 49)%Q).
    { rewrite Qabs_pos by (rewrite Hx; lra).
      rewrite pow2_Z by lia.
      apply (Qle_lt_trans _ (inject_Z k)).
      - apply Qle_shift_div_r; [exact Pd|].
        rewrite <- inject_Z_mult, <- Zle_Qle. nia.
      - rewrite <- Zlt_Qlt. lia. }
    pose proof (ulp_exp_le _ _ E B) as U. change (Z.max (49 - 53) (-1074)) with (-4) in U.
    pose proof (pow2_le _ _ U) as U2. change (pow2 (-4)) with (1 # 16)%Q in U2.
    pose proof (fl_err _ E) as Er. apply Qabs_Qle_condition in Er.
    set (y := fl (inject_Z k / inject_Z d)) in *.
    set (P := pow2 (ulp_exp (inject_Z k / inject_Z d))) in *.
    rewrite Hx in Er. apply Qfloor_unique; lra.
Qed.

(** The double literal [0.1]: a double is below it exactly when it is below
    1/10. *)
Lemma double_lt_tenth (d : Q) : (fl d == d)%Q -> Qltb d (fl (1 # 10)) = Qltb d (1 # 10).
Proof.
  intros Hd.
  assert (A : (1 # 10 < fl (1 # 10))%Q) by (vm_compute; reflexivity).
  unfold Qltb. f_equal.
  destruct (Qle_bool (fl (1 # 10)) d) eqn:E1, (Qle_bool (1 # 10) d) eqn:E2; try reflexivity.
  - apply Qle_bool_iff in E1.
    assert (B : ~ (1 # 10 <= d)%Q) by (intros C; apply Qle_bool_iff in C; congruence).
    exfalso. apply B. lra.
  - apply Qle_bool_iff in E2.
    assert (B : ~ (fl (1 # 10) <= d)%Q) by (intros C; apply Qle_bool_iff in C; congruence).
    exfalso. apply B. rewrite <- Hd. apply fl_mono; [discriminate|exact E2].
Qed.

(** ** The double time bonus *)

Lemma Math_round_nonpos (y : Q) : (y <= 0)%Q -> Math_round y <= 0.
Proof.
  intros H. unfold Math_round. change 0 with (Qfloor (1 # 2)).
  apply Qfloor_resp_le. lra.
Qed.

Lemma bonus_check :
  forallb (fun i => Bool.eqb (Z.eqb (timeBonusDouble (Z.of_nat i)) (specTimeBonus (inject_Z (Z.of_nat i) / 1000)))
                             (negb (Z.eqb (Z.of_nat i) 2700)))
          (List.seq 0 3101) = true.
Proof. vm_compute. reflexivity. Qed.

Lemma bonus_agrees (d : Z) : 0 <= d ->
  (timeBonusDouble d = specTimeBonus (inject_Z d / 1000) <-> d <> 2700).
Proof.
  intros H0. destruct (Z.le_gt_cases d 3100) as [Le|Gt].
  - pose proof (proj1 (forallb_forall _ _) bonus_check (Z.to_nat d)) as C.
    assert (I : List.In (Z.to_nat d) (List.seq 0 3101)) by (apply in_seq; lia).
    specialize (C I). cbv beta in C. rewrite Z2Nat.id in C by exact H0.
    destruct (Z.eqb_spec (timeBonusDouble d) (specTimeBonus (inject_Z d / 1000)));
    destruct (Z.eqb_spec d 2700); simpl in C; try discriminate; split; intros; auto; congruence.
  - assert (A : specTimeBonus (inject_Z d / 1000) = 0).
    { unfold specTimeBonus. apply Z.max_l. apply Math_round_nonpos.
      assert (D : (inject_Z 3101 <= inject_Z d)%Q) by (rewrite <- Zle_Qle; lia).
      change (inject_Z 3101) with (3101 # 1)%Q in D.
      unfold Qdiv. change (/ 1000)%Q with (1 # 1000)%Q. lra. }
    assert (B : timeBonusDouble d = 0).
    { unfold timeBonusDouble, msToSeconds. apply Z.max_l. apply Math_round_nonpos.
      apply fl_nonpos.
      assert (F : (3 < fl (inject_Z d / 1000))%Q).
      { apply (Qlt_le_trans _ (fl (inject_Z 3101 / 1000))); [vm_compute; reflexivity|].
        apply fl_mono; [vm_compute; discriminate|].
        assert (D : (inject_Z 3101 <= inject_Z d)%Q) by (rewrite <- Zle_Qle; lia).
        change (inject_Z 3101) with (3101 # 1)%Q in D |- *.
        unfold Qdiv. change (/ 1000)%Q with (1 # 1000)%Q. lra. }
      pose proof (fl_nonpos (3 - fl (inject_Z d / 1000)) ltac:(lra)). lra. }
    rewrite A, B. split; [intros _; lia|reflexivity].
Qed.


(** ** Frame lemmas *)

Lemma getNextWord_frame (s : Service) :
  let s' := snd (getNextWord s) in
  gameState s' = gameState s /\ currentSettings s' = currentSettings s /\
  now s' = now s /\ wordStartTime s' = wordStartTime s /\
  timerSubscription s' = timerSubscription s /\
  wordTimerSubscription s' = wordTimerSubscription s.
Proof.
  unfold getNextWord, getNextCustomWord, getRandomWord, getSettings, bind, gets, ret, modify.
  simpl. destruct (isCustomMode (currentSettings s)); simpl; [|repeat split].
  destruct (customTextWords s); simpl; [repeat split|].
  destruct (_ && _); simpl; repeat split.
Qed.

Lemma Math_floor_div (k d : Z) : 0 < d -> Math_floor (inject_Z k / inject_Z d) = k / d.
Proof.
  intros Hd. unfold Math_floor, Qdiv, Qmult, Qinv, inject_Z, Qfloor. simpl.
  destruct d; try lia. simpl. now rewrite Z.mul_1_r.
Qed.

(** The effect of [handleCorrectWord] on the service object. *)
Lemma handleCorrectWord_effect (s : Service) (t : Q) :
  let g := gameState s in
  let r := fst (handleCorrectWord t s) in
  let s' := snd (handleCorrectWord t s) in
  let g' := gameState s' in
  r = {| isCorrect := true; timeTaken := t; word := currentWord g |} /\
  score g' = score g + Math_round (inject_Z (js_length (currentWord g) * 10
                 + Z.max 0 (Math_round (fl (fl (3 - t) * 5)))
                 + Math_floor (inject_Z (streak g) / 5)%Q * 50) * multiplier g)%Q /\
  streak g' = streak g + 1 /\
  multiplier g' = Qmin 5 (1 + inject_Z (Math_floor (inject_Z (streak g + 1) / 10)) * (1 # 2))%Q /\
  correctWords g' = correctWords g + 1 /\ totalWords g' = totalWords g + 1 /\
  mistakes g' = mistakes g /\ userInput g' = "" /\
  currentWord g' = fst (getNextWord s) /\
  isPlaying g' = isPlaying g /\ isPaused g' = isPaused g /\ isGameOver g' = isGameOver g /\
  timeRemaining g' = timeRemaining g /\
  wordsTyped g' = app (wordsTyped g) [currentWord g] /\
  wordStartTime s' = now s /\ timerSubscription s' = timerSubscription s /\
  wordTimerSubscription s' =
    (if isRunning g then Some (getTimePerWord (difficulty (currentSettings s))) else None).
Proof.
  unfold handleCorrectWord, restartWordTimer, startWordTimer, getSettings, getGameState,
    setGameState, dateNow, bind, gets, ret, modify.
  pose proof (getNextWord_frame s) as F. cbn zeta in F.
  destruct (getNextWord s) as [w s2] eqn:E. simpl in F |- *.
  destruct F as (F1 & F2 & F3 & F4 & F5 & F6).
  unfold isRunning.
  destruct (isPlaying (gameState s)), (isGameOver (gameState s)), (isPaused (gameState s));
    simpl; rewrite ?F2, ?F3, ?F5; repeat split.
Qed.

(** The effect of [handleIncorrectWord] on the service object. *)
Lemma handleIncorrectWord_effect (s : Service) (t : Q) :
  let g := gameState s in
  let r := fst (handleIncorrectWord t s) in
  let s' := snd (handleIncorrectWord t s) in
  let g' := gameState s' in
  r = {| isCorrect := false; timeTaken := t; word := currentWord g |} /\
  score g' = score g /\ streak g' = 0 /\ multiplier g' = 1%Q /\
  correctWords g' = correctWords g /\ totalWords g' = totalWords g + 1 /\
  mistakes g' = mistakes g + 1 /\ userInput g' = "" /\
  currentWord g' = fst (getNextWord s) /\
  isPlaying g' = isPlaying g /\ isPaused g' = isPaused g /\ isGameOver g' = isGameOver g /\
  timeRemaining g' = timeRemaining g /\
  wordsTyped g' = app (wordsTyped g) [currentWord g] /\
  wordStartTime s' = now s /\ timerSubscription s' = timerSubscription s /\
  wordTimerSubscription s' =
    (if isRunning g then Some (getTimePerWord (difficulty (currentSettings s))) else None).
Proof.
  unfold handleIncorrectWord, restartWordTimer, startWordTimer, getSettings, getGameState,
    setGameState, dateNow, bind, gets, ret, modify.
  pose proof (getNextWord_frame s) as F. cbn zeta in F.
  destruct (getNextWord s) as [w s2] eqn:E. simpl in F |- *.
  destruct F as (F1 & F2 & F3 & F4 & F5 & F6).
  unfold isRunning.
  destruct (isPlaying (gameState s)), (isGameOver (gameState s)), (isPaused (gameState s));
    simpl; rewrite ?F2, ?F3, ?F5; repeat split.
Qed.

(** [processInput] unfolded: the input is stored, then the two checks. *)
Lemma processInput_unfold (s : Service) (text : string) :
  processInput text s =
  (let g := gameState s in
   let t := (msToSeconds (now s - wordStartTime s)) in
   let s1 := with_gameState (set_userInput text g) s in
   if String.eqb text (currentWord g) then handleCorrectWord t s1
   else if js_length (currentWord g) <=? js_length text then handleIncorrectWord t s1
   else ({| isCorrect := false; timeTaken := t; word := currentWord g |}, s1)).
Proof.
  unfold processInput, secondsSinceWordStart, updateGameState, getGameState, setGameState,
    dateNow, bind, gets, ret, modify. cbn -[handleCorrectWord handleIncorrectWord].
  destruct (String.eqb _ _); [reflexivity|].
  destruct (_ <=? _); reflexivity.
Qed.

Lemma Math_floor_div5 (k : Z) : Math_floor (inject_Z k / 5)%Q = k / 5.
Proof. exact (Math_floor_div k 5 ltac:(lia)). Qed.

Lemma Math_floor_div10 (k : Z) : Math_floor (inject_Z k / 10)%Q = k / 10.
Proof. exact (Math_floor_div k 10 ltac:(lia)). Qed.

(** ** C1: a correct word *)

(** C1. In a Running session, an input equal to [currentWord] commits a
    correct word. With [d] the milliseconds since the word started and [t]
    the double [d / 1000], the word scores
    [round((len*10 + timeBonus + floor(streak/5)*50) * multiplier)] with the
    streak and multiplier from before the word, where [timeBonus] is
    [max(0, round((3 - t)*5))] evaluated in doubles: never negative, and
    for [d >= 0] equal to the exact [max(0, round((3 - d/1000)*5))] for
    every [d] but 2700 ms. The streak grows by one, the multiplier becomes
    [min(5, 1 + floor(streak/10)*0.5)] of the new streak, [correctWords] and
    [totalWords] grow by one, the input is cleared, the next word is the one
    [getNextWord] fetches and the word timer restarts at the current time. *)
Theorem processInput_correct_word (s : Service) (text : string)
  (HR : isRunning (gameState s) = true)
  (Heq : text = currentWord (gameState s)) :
  let g := gameState s in
  let d := now s - wordStartTime s in
  let t := msToSeconds d in
  let s1 := with_gameState (set_userInput text g) s in
  let r := fst (processInput text s) in
  let s' := snd (processInput text s) in
  let g' := gameState s' in
  r = {| isCorrect := true; timeTaken := t; word := currentWord g |} /\
  0 <= timeBonusDouble d /\
  (0 <= d -> (timeBonusDouble d = specTimeBonus (inject_Z d / 1000) <-> d <> 2700)) /\
  score g' = score g + Math_round (inject_Z (specBaseScore (currentWord g)
                 + timeBonusDouble d + specStreakBonus (streak g)) * multiplier g)%Q /\
  streak g' = streak g + 1 /\
  (multiplier g' == specMultiplier (streak g'))%Q /\
  correctWords g' = correctWords g + 1 /\ totalWords g' = totalWords g + 1 /\
  mistakes g' = mistakes g /\
  userInput g' = "" /\ currentWord g' = fst (getNextWord s1) /\
  wordStartTime s' = now s /\
  wordTimerSubscription s' = Some (getTimePerWord (difficulty (currentSettings s))).
Proof.
  cbn zeta. rewrite processInput_unfold. cbn zeta.
  subst text. rewrite String.eqb_refl.
  set (d := now s - wordStartTime s).
  set (s1 := with_gameState (set_userInput (currentWord (gameState s)) (gameState s)) s).
  pose proof (handleCorrectWord_effect s1 (msToSeconds d)) as E. cbn zeta in E.
  destruct E as (E1 & E2 & E3 & E4 & E5 & E6 & E7 & E8 & E9 & _ & _ & _ & _ & _ & E15 & _ & E17).
  rewrite Math_floor_div5 in E2. rewrite Math_floor_div10 in E4.
  subst s1; simpl in *.
  rewrite E1, E2, E3, E4, E5, E6, E7, E8, E9, E15, E17.
  unfold isRunning in *; simpl; rewrite HR.
  split; [reflexivity|].
  split; [unfold timeBonusDouble; lia|].
  split; [apply bonus_agrees|].
  unfold specBaseScore, specStreakBonus, specMultiplier, timeBonusDouble.
  repeat split; try reflexivity; lia.
Qed.

(** Scenario A: "the" typed 1.0 s after the word started, streak 0 and
    multiplier 1, scores 40 and sets the streak to 1. *)
Lemma processInput_correct_word_witness :
  isRunning (gameState (with_now 1000 startedService)) = true /\
  "the" = currentWord (gameState (with_now 1000 startedService)) /\
  streak (gameState (with_now 1000 startedService)) = 0 /\
  score (gameState (snd (processInput "the" (with_now 1000 startedService))))
    = score (gameState (with_now 1000 startedService)) + 40 /\
  streak (gameState (snd (processInput "the" (with_now 1000 startedService)))) = 1.
Proof.
  pose proof (processInput_correct_word (with_now 1000 startedService) "the"
                eq_refl eq_refl) as H.
  cbn zeta in H. destruct H as (_ & _ & _ & Hs & Hk & _).
  split; [reflexivity|]. split; [reflexivity|]. split; [reflexivity|].
  split.
  - rewrite Hs. vm_compute. reflexivity.
  - rewrite Hk. vm_compute. reflexivity.
Defined.

(** "the" typed 2.7 s after the word started, streak 0 and multiplier 1:
    in doubles [(3 - 2.7) * 5] is [1.4999999999999991], which rounds to 1,
    so the word scores 31; the formula in exact arithmetic gives a time
    bonus of [round(1.5) = 2] and a score of 32. *)
Lemma processInput_correct_word_counterexample :
  isRunning (gameState (with_now 2700 startedService)) = true /\
  "the" = currentWord (gameState (with_now 2700 startedService)) /\
  streak (gameState (with_now 2700 startedService)) = 0 /\
  multiplier (gameState (with_now 2700 startedService)) = 1%Q /\
  now (with_now 2700 startedService) - wordStartTime (with_now 2700 startedService) = 2700 /\
  score (gameState (snd (processInput "the" (with_now 2700 startedService))))
    = score (gameState (with_now 2700 startedService)) + 31 /\
  specTimeBonus (27 # 10) = 2 /\
  Math_round (inject_Z (specBaseScore "the" + specTimeBonus (27 # 10) + specStreakBonus 0) * 1)%Q
    = 32.
Proof. vm_compute. repeat split; reflexivity. Qed.

(** [skipWord] unfolded. *)
Lemma skipWord_unfold (s : Service) :
  snd (skipWord s) =
  snd (handleIncorrectWord (msToSeconds (now s - wordStartTime s)) s).
Proof.
  unfold skipWord, secondsSinceWordStart, dateNow, bind, gets, ret. simpl.
  destruct (handleIncorrectWord _ s); reflexivity.
Qed.

Lemma handleIncorrectWord_commit (s : Service) (t : Q) :
  incorrectCommit (gameState s) (gameState (snd (handleIncorrectWord t s)))
    (fst (getNextWord s)).
Proof.
  pose proof (handleIncorrectWord_effect s t) as E. cbn zeta in E.
  destruct E as (_ & E2 & E3 & E4 & E5 & E6 & E7 & E8 & E9 & _).
  unfold incorrectCommit. rewrite E2, E3, E4, E5, E6, E7, E8, E9. repeat split.
Qed.

(** ** C2: an incorrect word *)

(** C2. Every incorrect-word commit, whatever the streak before it and
    whatever the input: an input at least as long as [currentWord] and
    different from it given to [processInput], or [skipWord] (the explicit
    skip, and the call the word timer makes on a timeout). It adds one to
    [totalWords] and [mistakes], sets the streak to 0 and the multiplier to
    1, adds no score, keeps [correctWords], clears the input and fetches the
    next word. *)
Theorem incorrect_word_commit (s : Service) (text : string)
  (Hne : text <> currentWord (gameState s))
  (Hlen : js_length (currentWord (gameState s)) <= js_length text) :
  incorrectCommit (gameState s) (gameState (snd (processInput text s)))
    (fst (getNextWord (with_gameState (set_userInput text (gameState s)) s))) /\
  incorrectCommit (gameState s) (gameState (snd (skipWord s)))
    (fst (getNextWord s)).
Proof.
  split.
  - rewrite processInput_unfold. cbn zeta.
    apply String.eqb_neq in Hne. rewrite Hne.
    apply Z.leb_le in Hlen. rewrite Hlen.
    exact (handleIncorrectWord_commit
             (with_gameState (set_userInput text (gameState s)) s) _).
  - rewrite skipWord_unfold. apply handleIncorrectWord_commit.
Qed.

(** Scenario C: after a streak of 9 correct words, a wrong word resets the
    streak and the multiplier and counts a mistake. *)
Lemma incorrect_word_commit_witness :
  streak (gameState (typeCorrectly 9 startedService)) = 9 /\
  "zzzzzzzzzzzz" <> currentWord (gameState (typeCorrectly 9 startedService)) /\
  js_length (currentWord (gameState (typeCorrectly 9 startedService)))
    <= js_length "zzzzzzzzzzzz" /\
  streak (gameState (snd (processInput "zzzzzzzzzzzz" (typeCorrectly 9 startedService)))) = 0.
Proof.
  assert (Hne : "zzzzzzzzzzzz" <> currentWord (gameState (typeCorrectly 9 startedService))).
  { vm_compute. discriminate. }
  assert (Hlen : js_length (currentWord (gameState (typeCorrectly 9 startedService)))
                 <= js_length "zzzzzzzzzzzz").
  { vm_compute. discriminate. }
  destruct (incorrect_word_commit (typeCorrectly 9 startedService) "zzzzzzzzzzzz" Hne Hlen)
    as ((_ & _ & Hk & _) & _).
  split; [vm_compute; reflexivity|]. split; [exact Hne|]. split; [exact Hlen|]. exact Hk.
Defined.

(** ** C3: the order of the checks in [processInput] *)

(** C3. [processInput] first compares the input with [currentWord] (equal:
    a correct commit), then compares lengths (at least as long: an incorrect
    commit, so an input of the same length with wrong characters is one),
    and otherwise only stores the input and answers
    [{isCorrect: false, timeTaken, word: currentWord}], every counter
    unchanged. *)
Theorem processInput_check_order (s : Service) (text : string) :
  let g := gameState s in
  let t := (msToSeconds (now s - wordStartTime s)) in
  let s1 := with_gameState (set_userInput text g) s in
  let g' := gameState (snd (processInput text s)) in
  (text = currentWord g ->
     isCorrect (fst (processInput text s)) = true /\
     correctWords g' = correctWords g + 1 /\ totalWords g' = totalWords g + 1 /\
     mistakes g' = mistakes g) /\
  (text <> currentWord g -> js_length (currentWord g) <= js_length text ->
     fst (processInput text s) = {| isCorrect := false; timeTaken := t; word := currentWord g |} /\
     correctWords g' = correctWords g /\ totalWords g' = totalWords g + 1 /\
     mistakes g' = mistakes g + 1) /\
  (js_length text < js_length (currentWord g) ->
     processInput text s = ({| isCorrect := false; timeTaken := t; word := currentWord g |}, s1)).
Proof.
  cbn zeta. repeat split; intros; rewrite processInput_unfold; cbn zeta.
  - subst text. rewrite String.eqb_refl.
    pose proof (handleCorrectWord_effect
      (with_gameState (set_userInput (currentWord (gameState s)) (gameState s)) s)
      (msToSeconds (now s - wordStartTime s))) as E.
    cbn zeta in E. destruct E as (E1 & _). rewrite E1. reflexivity.
  - subst text. rewrite String.eqb_refl.
    pose proof (handleCorrectWord_effect
      (with_gameState (set_userInput (currentWord (gameState s)) (gameState s)) s)
      (msToSeconds (now s - wordStartTime s))) as E.
    cbn zeta in E. destruct E as (_ & _ & _ & _ & E5 & _). exact E5.
  - subst text. rewrite String.eqb_refl.
    pose proof (handleCorrectWord_effect
      (with_gameState (set_userInput (currentWord (gameState s)) (gameState s)) s)
      (msToSeconds (now s - wordStartTime s))) as E.
    cbn zeta in E. destruct E as (_ & _ & _ & _ & _ & E6 & _). exact E6.
  - subst text. rewrite String.eqb_refl.
    pose proof (handleCorrectWord_effect
      (with_gameState (set_userInput (currentWord (gameState s)) (gameState s)) s)
      (msToSeconds (now s - wordStartTime s))) as E.
    cbn zeta in E. destruct E as (_ & _ & _ & _ & _ & _ & E7 & _). exact E7.
  - apply String.eqb_neq in H. rewrite H. apply Z.leb_le in H0. rewrite H0.
    pose proof (handleIncorrectWord_effect
      (with_gameState (set_userInput text (gameState s)) s)
      (msToSeconds (now s - wordStartTime s))) as E.
    cbn zeta in E. destruct E as (E1 & _). exact E1.
  - apply String.eqb_neq in H. rewrite H. apply Z.leb_le in H0. rewrite H0.
    pose proof (handleIncorrectWord_effect
      (with_gameState (set_userInput text (gameState s)) s)
      (msToSeconds (now s - wordStartTime s))) as E.
    cbn zeta in E. destruct E as (_ & _ & _ & _ & E5 & _). exact E5.
  - apply String.eqb_neq in H. rewrite H. apply Z.leb_le in H0. rewrite H0.
    pose proof (handleIncorrectWord_effect
      (with_gameState (set_userInput text (gameState s)) s)
      (msToSeconds (now s - wordStartTime s))) as E.
    cbn zeta in E. destruct E as (_ & _ & _ & _ & _ & E6 & _). exact E6.
  - apply String.eqb_neq in H. rewrite H. apply Z.leb_le in H0. rewrite H0.
    pose proof (handleIncorrectWord_effect
      (with_gameState (set_userInput text (gameState s)) s)
      (msToSeconds (now s - wordStartTime s))) as E.
    cbn zeta in E. destruct E as (_ & _ & _ & _ & _ & _ & E7 & _). exact E7.
  - assert (Hne : String.eqb text (currentWord (gameState s)) = false).
    { apply String.eqb_neq. intros ->. lia. }
    rewrite Hne. replace (js_length (currentWord (gameState s)) <=? js_length text)
      with false by (symmetry; apply Z.leb_gt; lia).
    reflexivity.
Qed.

(** On the word "the": "teh" (same length, wrong letters) is an incorrect
    commit, "th" is not yet decided. *)
Lemma processInput_check_order_witness :
  "teh" <> currentWord (gameState startedService) /\
  js_length (currentWord (gameState startedService)) <= js_length "teh" /\
  mistakes (gameState (snd (processInput "teh" startedService))) = 1 /\
  js_length "th" < js_length (currentWord (gameState startedService)) /\
  totalWords (gameState (snd (processInput "th" startedService))) = 0.
Proof.
  assert (H1 : "teh" <> currentWord (gameState startedService)) by (vm_compute; discriminate).
  assert (H2 : js_length (currentWord (gameState startedService)) <= js_length "teh")
    by (vm_compute; discriminate).
  assert (H3 : js_length "th" < js_length (currentWord (gameState startedService)))
    by (vm_compute; reflexivity).
  destruct (processInput_check_order startedService "teh") as (_ & Hinc & _).
  destruct (Hinc H1 H2) as (_ & _ & _ & Hm).
  destruct (processInput_check_order startedService "th") as (_ & _ & Hnd).
  split; [exact H1|]. split; [exact H2|]. split.
  - rewrite Hm. vm_compute. reflexivity.
  - split; [exact H3|]. rewrite (Hnd H3). vm_compute. reflexivity.
Defined.

(** ** C4: the word timer *)

(** In the word timer the [takeWhile] predicate and the [tap] body read the
    same elapsed time; with the [timePerWord] captured at subscription equal
    to the current difficulty's one, the body's [elapsed >= timePerWord]
    test can only run after the predicate found [elapsed < timePerWord]. *)
Lemma wordTimerTick_tap_guard (s : Service) (tpw : Q) :
  wordTimerSubscription s = Some tpw ->
  tpw = getTimePerWord (difficulty (currentSettings s)) ->
  snd (wordTimerTick s) = s \/ snd (wordTimerTick s) = with_wordTimerSubscription None s.
Proof.
  intros Hsub Htpw.
  unfold wordTimerTick, secondsSinceWordStart, getSettings, getGameState, dateNow,
    bind, gets, ret, modify.
  rewrite Hsub. cbn -[skipWord].
  destruct (Qltb _ tpw && _ && _ && _) eqn:C.
  - left. apply andb_true_iff in C as [C _]. apply andb_true_iff in C as [C _].
    apply andb_true_iff in C as [C _]. unfold Qltb in C. subst tpw.
    apply negb_true_iff in C. rewrite C. reflexivity.
  - right. reflexivity.
Qed.

(** C4 (evaluated). A fire of the word timer never calls [skipWord]: it
    leaves the session unchanged, and once the elapsed time reaches the
    limit it only ends its own subscription. On the started Medium session
    (limit 2.5 s, word "the"), the fire at 2.5 s ends the word timer and the
    word is neither skipped nor counted. *)
Theorem wordTimerTick_never_skips (s : Service)
  (Hsub : wordTimerSubscription s = None \/
          wordTimerSubscription s = Some (getTimePerWord (difficulty (currentSettings s)))) :
  gameState (snd (wordTimerTick s)) = gameState s /\
  (forall n, gameState (snd (runTicks (repeat WordTick n) s)) = gameState s) /\
  (let s2 := snd (wordTimerTick (with_now 2500 startedService)) in
   isRunning (gameState s2) = true /\ currentWord (gameState s2) = "the" /\
   totalWords (gameState s2) = 0 /\ mistakes (gameState s2) = 0 /\
   wordTimerSubscription s2 = None).
Proof.
  assert (Step : forall s0,
    wordTimerSubscription s0 = None \/
    wordTimerSubscription s0 = Some (getTimePerWord (difficulty (currentSettings s0))) ->
    (snd (wordTimerTick s0) = s0 \/
     snd (wordTimerTick s0) = with_wordTimerSubscription None s0)).
  { intros s0 [H|H].
    - left. unfold wordTimerTick, bind, gets. rewrite H. reflexivity.
    - eapply wordTimerTick_tap_guard; [exact H|reflexivity]. }
  split; [|split].
  - destruct (Step s Hsub) as [E|E]; rewrite E; reflexivity.
  - intros n. revert s Hsub. induction n as [|n IH]; intros s0 H0.
    + reflexivity.
    + simpl. unfold bind at 1. unfold tick.
      destruct (Step s0 H0) as [E|E];
        destruct (wordTimerTick s0) as [u s1] eqn:W; simpl in E; subst s1.
      * apply IH. exact H0.
      * rewrite IH; [reflexivity|]. left. reflexivity.
  - vm_compute. repeat split.
Qed.

(** The started session, 2.5 s into its first word, meets the hypothesis of
    [wordTimerTick_never_skips]; its word-timer fire leaves the session as
    it was. *)
Lemma wordTimerTick_never_skips_witness :
  wordTimerSubscription (with_now 2500 startedService) =
    Some (getTimePerWord (difficulty (currentSettings (with_now 2500 startedService)))) /\
  gameState (snd (wordTimerTick (with_now 2500 startedService)))
    = gameState (with_now 2500 startedService).
Proof.
  assert (H : wordTimerSubscription (with_now 2500 startedService) =
    Some (getTimePerWord (difficulty (currentSettings (with_now 2500 startedService)))))
    by (vm_compute; reflexivity).
  split; [exact H|].
  exact (proj1 (wordTimerTick_never_skips (with_now 2500 startedService) (or_intror H))).
Defined.

(** ** C5: the error classifier *)

Lemma findPattern_type (k : ErrorFeedback.PatternType) :
  option_map ErrorFeedback.type (ErrorFeedback.findPattern k) = Some k.
Proof. destruct k; reflexivity. Qed.

(** A one-character key is never an inherited member name. *)
Lemma layoutLookup_single (c : ascii) :
  ErrorFeedback.layoutLookup (toLowerCase (String c "")) =
  option_map ErrorFeedback.Own (ErrorFeedback.ownKey (toLowerCase (String c ""))).
Proof. destruct c as [[] [] [] [] [] [] [] []]; vm_compute; reflexivity. Qed.

(** C5. On single characters, [classifyError] returns the pattern of the
    first matching rule: a character missing from the geometry table gives
    visual; Manhattan distance 1 gives finger_slip; different fingers and
    distance at most 2 give finger_confusion; a time under 0.1 s gives
    timing; distance over 3 gives visual; anything else muscle_memory. The
    result is a function of its three arguments, and 'f' typed for 'g'
    (distance 1) is a finger_slip at any time. *)
Theorem classifyError_rules (e a : ascii) (t : Q) :
  option_map ErrorFeedback.type (ErrorFeedback.classifyError (String e "") (String a "") t)
    = Some (ErrorFeedback.classify_rules e a t) /\
  option_map ErrorFeedback.type (ErrorFeedback.classifyError "f" "g" t)
    = Some ErrorFeedback.finger_slip.
Proof.
  split.
  - unfold ErrorFeedback.classifyError, ErrorFeedback.classify_rules, ErrorFeedback.keyOf.
    rewrite !layoutLookup_single.
    destruct (ErrorFeedback.ownKey (toLowerCase (String e ""))) as [k1|];
      destruct (ErrorFeedback.ownKey (toLowerCase (String a ""))) as [k2|];
      try apply findPattern_type.
    cbn [option_map ErrorFeedback.num_add ErrorFeedback.num_sub ErrorFeedback.lv_row
         ErrorFeedback.lv_col ErrorFeedback.lv_finger ErrorFeedback.num_eqb
         ErrorFeedback.num_leb ErrorFeedback.num_gtb ErrorFeedback.opt_str_neqb].
    unfold ErrorFeedback.manhattan. cbv zeta. rewrite Z.gtb_ltb.
    repeat match goal with |- context [if ?b then _ else _] => destruct b end;
      apply findPattern_type.
  - unfold ErrorFeedback.classifyError. simpl. reflexivity.
Qed.

(** ** C6: the multiplier *)

Lemma specMultiplier_step_le (m m' : Z) :
  m <= m' -> (1 + inject_Z m * (1 # 2) <= 1 + inject_Z m' * (1 # 2))%Q.
Proof.
  intros H. apply Qplus_le_compat; [apply Qle_refl|].
  apply Qmult_le_compat_r; [rewrite <- Zle_Qle; exact H | discriminate].
Qed.

(** C6. For every streak [k >= 0] the multiplier [min(5, 1 + floor(k/10)*0.5)]
    lies between 1 and 5 and does not decrease as [k] grows; it is the
    multiplier the session holds after every commit (a correct word sets it
    from the new streak, an incorrect one sets the streak to 0 and the
    multiplier to 1); after 10 correct words from the start the streak is 10
    and the multiplier 1.5. *)
Theorem multiplier_bounds_monotone :
  (forall k, 0 <= k -> (1 <= specMultiplier k <= 5)%Q) /\
  (forall k k', 0 <= k <= k' -> (specMultiplier k <= specMultiplier k')%Q) /\
  (forall s t, let g' := gameState (snd (handleCorrectWord t s)) in
     (multiplier g' == specMultiplier (streak g'))%Q) /\
  (forall s t, let g' := gameState (snd (handleIncorrectWord t s)) in
     (multiplier g' == specMultiplier (streak g'))%Q) /\
  streak (gameState (typeCorrectly 10 startedService)) = 10 /\
  (multiplier (gameState (typeCorrectly 10 startedService)) == 3 # 2)%Q.
Proof.
  split; [|split; [|split; [|split]]].
  - intros k Hk. unfold specMultiplier. split.
    + apply Q.min_glb.
      * unfold Qle; simpl; lia.
      * assert (0 <= k / 10) by (apply Z.div_pos; lia).
        pose proof (specMultiplier_step_le 0 (k / 10) H) as L.
        eapply Qle_trans; [|exact L]. unfold Qle; simpl; lia.
    + apply Q.le_min_l.
  - intros k k' Hk. unfold specMultiplier. apply Q.min_le_compat_l.
    apply specMultiplier_step_le. apply Z.div_le_mono; lia.
  - intros s t. pose proof (handleCorrectWord_effect s t) as E. cbn zeta in E |- *.
    destruct E as (_ & _ & E3 & E4 & _). rewrite E3, E4, Math_floor_div10.
    reflexivity.
  - intros s t. pose proof (handleIncorrectWord_effect s t) as E. cbn zeta in E |- *.
    destruct E as (_ & _ & E3 & E4 & _). rewrite E3, E4. reflexivity.
  - split; vm_compute; reflexivity.
Qed.

(** ** C7: the session timer *)

(** A fire of the session timer on a session that is not playing changes
    nothing but, at most, its own subscription. *)
Lemma gameTimerTick_not_playing (s : Service) :
  isPlaying (gameState s) = false -> gameState (snd (gameTimerTick s)) = gameState s.
Proof.
  intros H. unfold gameTimerTick, getGameState, bind, gets, ret, modify.
  destruct (timerSubscription s); simpl; [|reflexivity].
  rewrite H, andb_false_r. reflexivity.
Qed.

(** One fire of the session timer on a Running session with time left. *)
Lemma gameTimerTick_running_step (s : Service) :
  isRunning (gameState s) = true -> timerSubscription s = true ->
  0 < timeRemaining (gameState s) ->
  let g := gameState s in
  let s' := snd (gameTimerTick s) in
  let g' := gameState s' in
  timeRemaining g' = Z.max 0 (timeRemaining g - 1) /\
  timeRemaining g' = timeRemaining g - 1 /\
  (timeRemaining g' = 0 ->
     isGameOver g' = true /\ isPlaying g' = false /\ isPaused g' = false /\
     timerSubscription s' = false /\ wordTimerSubscription s' = None) /\
  (0 < timeRemaining g' ->
     g' = set_timeRemaining (timeRemaining g - 1) g /\ isRunning g' = true /\
     timerSubscription s' = true).
Proof.
  intros HR Hsub Hpos. cbn zeta.
  assert (Hc : (0 <? timeRemaining (gameState s)) && isPlaying (gameState s)
               && negb (isPaused (gameState s)) = true).
  { unfold isRunning in HR.
    destruct (isPlaying _), (isPaused _), (isGameOver _); try discriminate.
    rewrite !andb_true_r. apply Z.ltb_lt. exact Hpos. }
  unfold gameTimerTick, updateGameState, endGame, stopTimers, getGameState,
    setGameState, bind, gets, ret, modify.
  rewrite Hsub. simpl. rewrite Hc. simpl.
  replace (Z.max 0 (timeRemaining (gameState s) - 1)) with (timeRemaining (gameState s) - 1)
    by lia.
  destruct (timeRemaining (gameState s) - 1 <=? 0) eqn:E; simpl.
  - apply Z.leb_le in E.
    split; [lia|]. split; [reflexivity|]. split; [intros _; repeat split|].
    intros; lia.
  - apply Z.leb_gt in E.
    split; [lia|]. split; [reflexivity|]. split; [intros; lia|].
    intros _. split; [reflexivity|]. split; [exact HR|exact Hsub].
Qed.

(** C7. While the session is Running, with its timer subscribed and time
    left, a fire of the session timer takes exactly one second off
    [timeRemaining] ([max(0, t - 1)]); the session ends (Over, both timers
    stopped) exactly when that reaches 0 and stays Running otherwise; a fire
    on an ended session changes nothing, so 0 is reached once. A 60-second
    session is still Running with 1 second left after 59 one-second fires,
    is Over with 0 left after 60, and further fires leave it so. *)
Theorem gameTimerTick_countdown (s : Service)
  (HR : isRunning (gameState s) = true)
  (Hsub : timerSubscription s = true)
  (Hpos : 0 < timeRemaining (gameState s)) :
  let g := gameState s in
  let s' := snd (gameTimerTick s) in
  let g' := gameState s' in
  timeRemaining g' = Z.max 0 (timeRemaining g - 1) /\
  timeRemaining g' = timeRemaining g - 1 /\
  (timeRemaining g' = 0 ->
     isGameOver g' = true /\ isPlaying g' = false /\ isPaused g' = false /\
     timerSubscription s' = false /\ wordTimerSubscription s' = None) /\
  (0 < timeRemaining g' ->
     g' = set_timeRemaining (timeRemaining g - 1) g /\ isRunning g' = true /\
     timerSubscription s' = true) /\
  (forall s0, isPlaying (gameState s0) = false ->
     gameState (snd (gameTimerTick s0)) = gameState s0) /\
  (let e59 := gameState (snd (runTicks (secondTicks 59) startedService)) in
   let e60 := gameState (snd (runTicks (secondTicks 60) startedService)) in
   let e65 := gameState (snd (runTicks (secondTicks 65) startedService)) in
   timeRemaining (gameState startedService) = 60 /\
   isRunning e59 = true /\ timeRemaining e59 = 1 /\
   isGameOver e60 = true /\ isPlaying e60 = false /\ timeRemaining e60 = 0 /\
   e65 = e60).
Proof.
  cbn zeta.
  destruct (gameTimerTick_running_step s HR Hsub Hpos) as (A1 & A2 & A3 & A4).
  split; [exact A1|]. split; [exact A2|]. split; [exact A3|]. split; [exact A4|].
  split; [exact gameTimerTick_not_playing|].
  vm_compute. repeat split.
Qed.

(** The started 60-second session meets the hypotheses. *)
Lemma gameTimerTick_countdown_witness :
  isRunning (gameState startedService) = true /\ timerSubscription startedService = true /\
  0 < timeRemaining (gameState startedService) /\
  timeRemaining (gameState (snd (gameTimerTick startedService))) = 59.
Proof.
  assert (H1 : isRunning (gameState startedService) = true) by (vm_compute; reflexivity).
  assert (H2 : timerSubscription startedService = true) by (vm_compute; reflexivity).
  assert (H3 : 0 < timeRemaining (gameState startedService)) by (vm_compute; reflexivity).
  destruct (gameTimerTick_countdown startedService H1 H2 H3) as (_ & Ht & _).
  split; [exact H1|]. split; [exact H2|]. split; [exact H3|].
  rewrite Ht. vm_compute. reflexivity.
Defined.

(** ** C8: pause and resume *)

(** A clock tick on a paused session leaves the session state, the word
    start time and the settings as they were. *)
Lemma tick_paused (t : Tick) (s : Service) :
  isPaused (gameState s) = true ->
  gameState (snd (tick t s)) = gameState s /\
  wordStartTime (snd (tick t s)) = wordStartTime s /\
  currentSettings (snd (tick t s)) = currentSettings s.
Proof.
  intros H. destruct t; simpl.
  - unfold gameTimerTick, getGameState, bind, gets, ret, modify.
    destruct (timerSubscription s); simpl; [|repeat split].
    rewrite H, andb_false_r. simpl. repeat split.
  - unfold wordTimerTick, secondsSinceWordStart, getGameState, dateNow, bind, gets, ret, modify.
    destruct (wordTimerSubscription s); simpl; [|repeat split].
    rewrite H, andb_false_r, andb_false_l. simpl. repeat split.
  - repeat split.
Qed.

Lemma runTicks_paused (ts : list Tick) (s : Service) :
  isPaused (gameState s) = true ->
  gameState (snd (runTicks ts s)) = gameState s /\
  wordStartTime (snd (runTicks ts s)) = wordStartTime s /\
  currentSettings (snd (runTicks ts s)) = currentSettings s.
Proof.
  revert s. induction ts as [|t ts IH]; intros s H; [repeat split|].
  simpl. unfold bind.
  pose proof (tick_paused t s H) as (T1 & T2 & T3).
  destruct (tick t s) as [u s1]. simpl in T1, T2, T3.
  rewrite <- T1 in H. destruct (IH s1 H) as (I1 & I2 & I3).
  rewrite I1, I2, I3, T1, T2, T3. repeat split.
Qed.

(** [pauseGame] on a Running session. *)
Lemma pauseGame_running (s : Service) :
  isRunning (gameState s) = true ->
  let p := snd (pauseGame s) in
  gameState p = set_flags (isPlaying (gameState s)) (isGameOver (gameState s)) true (gameState s) /\
  timerSubscription p = false /\ wordTimerSubscription p = None /\
  wordStartTime p = wordStartTime s /\ currentSettings p = currentSettings s.
Proof.
  intros HR. unfold isRunning in HR.
  unfold pauseGame, updateGameState, stopTimers, getGameState, setGameState, bind, gets,
    ret, modify. simpl.
  destruct (isPaused (gameState s)); [rewrite andb_false_r in HR; discriminate|].
  simpl. repeat split.
Qed.

(** [pauseGame] on a paused session. *)
Lemma pauseGame_paused (s : Service) :
  isPaused (gameState s) = true ->
  let r := snd (pauseGame s) in
  gameState r = set_flags (isPlaying (gameState s)) (isGameOver (gameState s)) false (gameState s) /\
  timerSubscription r = true /\
  wordTimerSubscription r = Some (getTimePerWord (difficulty (currentSettings s))) /\
  wordStartTime r = wordStartTime s.
Proof.
  intros H.
  unfold pauseGame, startGameTimer, startWordTimer, getSettings, updateGameState,
    getGameState, setGameState, bind, gets, ret, modify. simpl.
  rewrite H. simpl. repeat split.
Qed.

(** C8 (counterexample). The word "the" runs for 1 s, the session is paused
    for 4 s and resumed: the word timer then measures 5 s for the word, not
    the 1 s it ran, and at the next fire (0.1 s later, 1.1 s of running
    time, under the 2.5 s limit) the word timer ends. *)
Lemma pause_resume_word_progress_counterexample :
  let s1 := with_now 1000 startedService in
  let p := snd (pauseGame s1) in
  let r := snd (pauseGame (snd (runTicks [Elapse 4000] p))) in
  now s1 - wordStartTime s1 = 1000 /\
  isRunning (gameState r) = true /\
  now r - wordStartTime r = 5000 /\
  wordTimerSubscription r = Some (5 # 2)%Q /\
  wordTimerSubscription (snd (runTicks [Elapse 100; WordTick] r)) = None.
Proof. vm_compute. repeat split. Qed.

(** C8 (amended). Pausing a Running session stops both timers; no clock
    tick (a session-timer fire, a word-timer fire, time passing) changes the
    session state while it stays paused, so [timeRemaining] does not
    decrease and no word is skipped; a second [pauseGame] resumes it,
    subscribing both timers again with [timeRemaining] as it was, and leaves
    the word start time unchanged, so the word timer counts the time since
    the word started, the paused interval included. *)
Theorem pause_stops_timers (s : Service) (HR : isRunning (gameState s) = true) :
  let p := snd (pauseGame s) in
  isPaused (gameState p) = true /\
  timerSubscription p = false /\ wordTimerSubscription p = None /\
  (forall ts, gameState (snd (runTicks ts p)) = gameState p) /\
  (forall ts,
     let r := snd (pauseGame (snd (runTicks ts p))) in
     isRunning (gameState r) = true /\
     timeRemaining (gameState r) = timeRemaining (gameState s) /\
     totalWords (gameState r) = totalWords (gameState s) /\
     currentWord (gameState r) = currentWord (gameState s) /\
     timerSubscription r = true /\
     wordTimerSubscription r = Some (getTimePerWord (difficulty (currentSettings s))) /\
     wordStartTime r = wordStartTime s).
Proof.
  cbn zeta.
  destruct (pauseGame_running s HR) as (P1 & P2 & P3 & P4 & P5).
  assert (Hp : isPaused (gameState (snd (pauseGame s))) = true) by (rewrite P1; reflexivity).
  split; [exact Hp|]. split; [exact P2|]. split; [exact P3|]. split.
  - intros ts. exact (proj1 (runTicks_paused ts _ Hp)).
  - intros ts. destruct (runTicks_paused ts _ Hp) as (R1 & R2 & R3).
    assert (Hq : isPaused (gameState (snd (runTicks ts (snd (pauseGame s))))) = true)
      by (rewrite R1; exact Hp).
    destruct (pauseGame_paused _ Hq) as (Q1 & Q2 & Q3 & Q4).
    rewrite Q1, Q2, Q3, Q4, R1, R2, R3, P1, P4, P5.
    unfold isRunning in HR |- *. simpl.
    destruct (isPlaying (gameState s)), (isPaused (gameState s)), (isGameOver (gameState s));
      try discriminate; repeat split.
Qed.

(** The started session meets the hypothesis; paused, ten one-second fires
    leave its [timeRemaining] at 60. *)
Lemma pause_stops_timers_witness :
  isRunning (gameState startedService) = true /\
  timeRemaining (gameState (snd (runTicks (secondTicks 10) (snd (pauseGame startedService)))))
    = 60.
Proof.
  assert (H : isRunning (gameState startedService) = true) by (vm_compute; reflexivity).
  split; [exact H|].
  destruct (pause_stops_timers startedService H) as (_ & _ & _ & Hticks & _).
  rewrite Hticks. vm_compute. reflexivity.
Defined.

(** ** C9: custom text *)

Lemma ascii_toLower_not_upper (c : ascii) : is_ascii_upper (ascii_toLower c) = false.
Proof.
  destruct c as [b0 b1 b2 b3 b4 b5 b6 b7].
  destruct b0, b1, b2, b3, b4, b5, b6, b7; vm_compute; reflexivity.
Qed.

Lemma toLowerCase_lower (s : string) :
  all_chars (fun c => negb (is_ascii_upper c)) (toLowerCase s) = true.
Proof.
  induction s as [|c r IH]; [reflexivity|].
  simpl. rewrite ascii_toLower_not_upper, IH. reflexivity.
Qed.

Lemma all_chars_append (f : ascii -> bool) (a b : string) :
  all_chars f (a ++ b) = all_chars f a && all_chars f b.
Proof.
  induction a as [|c r IH]; [reflexivity|]. simpl. rewrite IH. apply andb_assoc.
Qed.

Lemma split_ws_go_pieces (f : ascii -> bool) (s cur : string) (sep : bool) :
  all_chars f s = true ->
  all_chars (fun c => f c && negb (is_js_space c)) cur = true ->
  Forall (fun w => all_chars (fun c => f c && negb (is_js_space c)) w = true)
    (split_ws_go s cur sep).
Proof.
  revert cur sep. induction s as [|c r IH]; intros cur sep Hs Hcur.
  - simpl. constructor; [exact Hcur|constructor].
  - simpl in Hs. apply andb_true_iff in Hs as [Hc Hr]. simpl.
    destruct (is_js_space c) eqn:W.
    + destruct sep.
      * apply IH; assumption.
      * constructor; [exact Hcur|]. apply IH; [exact Hr|reflexivity].
    + apply IH; [exact Hr|]. rewrite all_chars_append, Hcur. simpl.
      rewrite Hc, W. reflexivity.
Qed.

Lemma remove_punct_chars (f : ascii -> bool) (w : string) :
  all_chars f w = true ->
  all_chars (fun c => f c && negb (is_stripped c)) (remove_punct w) = true.
Proof.
  induction w as [|c r IH]; intros H; [reflexivity|].
  simpl in H. apply andb_true_iff in H as [Hc Hr]. simpl.
  destruct (is_stripped c) eqn:P.
  - apply IH. exact Hr.
  - simpl. rewrite Hc, P, IH by exact Hr. reflexivity.
Qed.

(** The words of a custom text are non-empty and hold no upper-case letter,
    no white space and none of the stripped punctuation. *)
Lemma customTextTokens_words (content : string) :
  Forall (fun w => w <> "" /\ all_chars tokenChar w = true) (customTextTokens content).
Proof.
  unfold customTextTokens.
  assert (Hsplit := split_ws_go_pieces (fun c => negb (is_ascii_upper c))
                      (toLowerCase content) "" false (toLowerCase_lower content) eq_refl).
  fold (split_ws (toLowerCase content)) in Hsplit.
  induction (split_ws (toLowerCase content)) as [|w ws IH]; [constructor|].
  inversion Hsplit as [|? ? Hw Hws]; subst.
  simpl. destruct (0 <? js_length (remove_punct w)) eqn:L.
  - constructor; [|exact (IH Hws)]. split.
    + intros E. rewrite E in L. discriminate.
    + exact (remove_punct_chars _ _ Hw).
  - exact (IH Hws).
Qed.

(** [getNextCustomWord] on a non-empty word list: the word at the index, the
    index advanced cyclically, the session state untouched, and at most an
    [endGame] scheduled 100 ms ahead, only when the index wraps to 0. *)
Lemma getNextCustomWord_step (s : Service) :
  customTextWords s <> [] ->
  let words := customTextWords s in
  let i' := Nat.modulo (customTextIndex s + 1) (length words) in
  let s' := snd (getNextCustomWord s) in
  fst (getNextCustomWord s) = nth (customTextIndex s) words "" /\
  customTextWords s' = words /\ customTextIndex s' = i' /\
  gameState s' = gameState s /\ now s' = now s /\
  (timeouts s' = timeouts s \/ (i' = 0%nat /\ timeouts s' = app (timeouts s) [now s + 100])).
Proof.
  intros Hne. cbn zeta.
  unfold getNextCustomWord, setTimeout_endGame, getGameState, dateNow, bind, gets, ret, modify.
  destruct (customTextWords s) as [|w ws] eqn:W; [contradiction|].
  cbn -[Nat.modulo Nat.eqb Z.ltb].
  match goal with |- context [if ?b then _ else _] => destruct b eqn:C end;
    cbn -[Nat.modulo Nat.eqb Z.ltb].
  - apply andb_true_iff in C as [C _]. apply Nat.eqb_eq in C.
    do 5 (split; [reflexivity|]). right. split; [exact C|reflexivity].
  - do 5 (split; [reflexivity|]). left. reflexivity.
Qed.

(** [getNextCustomWord] schedules [endGame] exactly when the index wraps to 0
    while the [totalWords] it reads is positive. *)
Lemma getNextCustomWord_schedule (s : Service) :
  customTextWords s <> [] ->
  let i' := Nat.modulo (customTextIndex s + 1) (length (customTextWords s)) in
  timeouts (snd (getNextCustomWord s)) =
    if (i' =? 0)%nat && (0 <? totalWords (gameState s))
    then app (timeouts s) [now s + 100] else timeouts s.
Proof.
  intros Hne. cbn zeta.
  unfold getNextCustomWord, setTimeout_endGame, getGameState, dateNow, bind, gets, ret, modify.
  destruct (customTextWords s) as [|w ws] eqn:W; [contradiction|].
  cbn -[Nat.modulo Nat.eqb Z.ltb].
  destruct (_ && _); reflexivity.
Qed.

(** In custom mode [getNextWord] is [getNextCustomWord]. *)
Lemma getNextWord_custom (s : Service) :
  isCustomMode (currentSettings s) = true -> getNextWord s = getNextCustomWord s.
Proof.
  intros C. unfold getNextWord, getSettings, bind, gets. rewrite C. reflexivity.
Qed.

(** After fetching the next word, a commit changes neither the pending
    timeouts nor the custom-text index. *)
Lemma handleCorrectWord_fetch (s : Service) (t : Q) :
  timeouts (snd (handleCorrectWord t s)) = timeouts (snd (getNextWord s)) /\
  customTextIndex (snd (handleCorrectWord t s)) = customTextIndex (snd (getNextWord s)).
Proof.
  unfold handleCorrectWord, restartWordTimer, startWordTimer, getSettings, getGameState,
    setGameState, dateNow, bind, gets, ret, modify.
  destruct (getNextWord s) as [w s2]. simpl.
  destruct (_ && _ && _); split; reflexivity.
Qed.

Lemma handleIncorrectWord_fetch (s : Service) (t : Q) :
  timeouts (snd (handleIncorrectWord t s)) = timeouts (snd (getNextWord s)) /\
  customTextIndex (snd (handleIncorrectWord t s)) = customTextIndex (snd (getNextWord s)).
Proof.
  unfold handleIncorrectWord, restartWordTimer, startWordTimer, getSettings, getGameState,
    setGameState, dateNow, bind, gets, ret, modify.
  destruct (getNextWord s) as [w s2]. simpl.
  destruct (_ && _ && _); split; reflexivity.
Qed.

(** C9 (counterexample). A custom text of one word, "Hello": typing it
    completes one word and wraps the index back to 0, but no end of the
    session is scheduled; the same for the first word of the two-word text
    "Hello world". [getNextCustomWord] runs inside the [gameState.update]
    callback of the commit and reads [totalWords] before the commit counts
    the word. *)
Lemma custom_text_counterexample :
  (let s := typeCorrectly 1 (startedCustom "Hello") in
   correctWords (gameState s) = 1 /\ customTextIndex s = 0%nat /\
   isGameOver (gameState s) = false /\ timeouts s = []) /\
  (let s := typeCorrectly 1 (startedCustom "Hello world") in
   correctWords (gameState s) = 1 /\ customTextIndex s = 0%nat /\
   isGameOver (gameState s) = false /\ timeouts s = []).
Proof. vm_compute. repeat split. Qed.

(** C9. The custom-text word list is the content lower-cased, split on runs
    of white space, with the characters . , ! ? ; : double quote, apostrophe,
    ( ) and - removed from each piece and empty pieces dropped (so each word
    is non-empty and holds none of these, no white space and no upper-case
    letter; other punctuation such as / is kept); words are served by a
    cyclic index into the list, an empty list serving the fallback word
    "end". Serving a word never ends the session itself; it schedules
    [endGame()] 100 ms later exactly when the index wraps back to 0 while
    [totalWords] is positive. In a commit (a correct word, or an incorrect
    one of at least the current word's length) of a custom-mode session, that
    [totalWords] is the count before the commit, which then grows by one: the
    word being completed is not counted. So typing the one-word text "Hello"
    once wraps the index after one completed word and schedules nothing,
    typing it a second time schedules the end; on "The cat, sat." the end is
    scheduled when the last word is served and the session is Over 100 ms
    later. *)
Theorem custom_text_words_and_end :
  (forall content, Forall (fun w => w <> "" /\ all_chars tokenChar w = true)
                     (customTextTokens content)) /\
  customTextTokens "  The cat, sat.  it's (fine) - ok" = ["the"; "cat"; "sat"; "its"; "fine"; "ok"] /\
  customTextTokens "Hello/World" = ["hello/world"] /\
  (forall s, customTextWords s <> [] ->
     let words := customTextWords s in
     let i' := Nat.modulo (customTextIndex s + 1) (length words) in
     let s' := snd (getNextCustomWord s) in
     fst (getNextCustomWord s) = nth (customTextIndex s) words "" /\
     customTextWords s' = words /\ customTextIndex s' = i' /\
     gameState s' = gameState s /\
     timeouts s' = if (i' =? 0)%nat && (0 <? totalWords (gameState s))
                   then app (timeouts s) [now s + 100] else timeouts s) /\
  (forall s, customTextWords s = [] -> getNextCustomWord s = ("end", s)) /\
  (forall s text, isCustomMode (currentSettings s) = true -> customTextWords s <> [] ->
     let g := gameState s in
     let i' := Nat.modulo (customTextIndex s + 1) (length (customTextWords s)) in
     let s' := snd (processInput text s) in
     (String.eqb text (currentWord g) || (js_length (currentWord g) <=? js_length text))%bool = true ->
     totalWords (gameState s') = totalWords g + 1 /\ customTextIndex s' = i' /\
     timeouts s' = if (i' =? 0)%nat && (0 <? totalWords g)
                   then app (timeouts s) [now s + 100] else timeouts s) /\
  (let s := typeCorrectly 1 (startedCustom "Hello") in
   correctWords (gameState s) = 1 /\ customTextIndex s = 0%nat /\ timeouts s = [] /\
   timeouts (typeCorrectly 1 s) = [now (typeCorrectly 1 s) + 100]) /\
  (let s := typeCorrectly 2 (startedCustom "The cat, sat.") in
   currentWord (gameState s) = "sat" /\ customTextIndex s = 0%nat /\
   isGameOver (gameState s) = false /\ timeouts s = [now s + 100] /\
   isGameOver (gameState (snd (timeoutTick (with_now (now s + 100) s)))) = true).
Proof.
  split; [exact customTextTokens_words|].
  split; [vm_compute; reflexivity|].
  split; [vm_compute; reflexivity|].
  split; [|split; [|split]].
  - intros s Hne. pose proof (getNextCustomWord_step s Hne) as G.
    pose proof (getNextCustomWord_schedule s Hne) as T. cbn zeta in G, T |- *.
    destruct G as (G1 & G2 & G3 & G4 & _). auto.
  - intros s E. unfold getNextCustomWord, bind, gets. rewrite E. reflexivity.
  - intros s text C Hne. cbn zeta. intros Hc.
    rewrite processInput_unfold. cbn zeta.
    set (s1 := with_gameState (set_userInput text (gameState s)) s).
    assert (C1 : isCustomMode (currentSettings s1) = true) by exact C.
    assert (N1 : customTextWords s1 <> []) by exact Hne.
    pose proof (getNextCustomWord_step s1 N1) as G. cbn zeta in G.
    destruct G as (_ & _ & G3 & _).
    pose proof (getNextCustomWord_schedule s1 N1) as T. cbn zeta in T.
    rewrite <- (getNextWord_custom s1 C1) in G3, T.
    destruct (String.eqb text (currentWord (gameState s))) eqn:E1.
    + pose proof (handleCorrectWord_effect s1 (msToSeconds (now s - wordStartTime s))) as E.
      cbn zeta in E. destruct E as (_ & _ & _ & _ & _ & E6 & _).
      destruct (handleCorrectWord_fetch s1 (msToSeconds (now s - wordStartTime s))) as [F1 F2].
      rewrite E6, F1, F2, G3, T. split; [reflexivity|]. split; reflexivity.
    + simpl in Hc. rewrite Hc.
      pose proof (handleIncorrectWord_effect s1 (msToSeconds (now s - wordStartTime s))) as E.
      cbn zeta in E. destruct E as (_ & _ & _ & _ & _ & E6 & _).
      destruct (handleIncorrectWord_fetch s1 (msToSeconds (now s - wordStartTime s))) as [F1 F2].
      rewrite E6, F1, F2, G3, T. split; [reflexivity|]. split; reflexivity.
  - split; vm_compute; repeat split.
Qed.

(** ** C10: [processInput] outside the Running phase *)

(** [getNextWord] reads no phase flag: on a session whose game state is
    replaced by one with the same [totalWords], it fetches the same word and
    makes the same changes. *)
Lemma getNextWord_with_gameState (s : Service) (g : GameState) :
  totalWords g = totalWords (gameState s) ->
  getNextWord (with_gameState g s) = (fst (getNextWord s), with_gameState g (snd (getNextWord s))).
Proof.
  intros T. destruct s as [g0 cfg ts wts gst wst cws ci tos n rs r]. cbn in T.
  unfold getNextWord, getNextCustomWord, getRandomWord, setTimeout_endGame,
    getSettings, getGameState, dateNow, bind, gets, ret, modify.
  cbn. destruct (isCustomMode cfg); [destruct cws|]; cbn;
    try reflexivity.
  rewrite T. destruct (_ && _); reflexivity.
Qed.

(** [processInput] on a session whose phase flags are replaced. *)
Lemma processInput_flags (s : Service) (text : string) (p o z : bool) :
  let s0 := with_gameState (set_flags p o z (gameState s)) s in
  let s' := snd (processInput text s) in
  fst (processInput text s0) = fst (processInput text s) /\
  with_wordTimerSubscription (wordTimerSubscription s') (snd (processInput text s0)) =
  with_gameState (set_flags p o z (gameState s')) s'.
Proof.
  cbn zeta. rewrite !processInput_unfold. cbn zeta.
  change (gameState (with_gameState ?x _)) with x.
  change (currentWord (set_flags p o z (gameState s))) with (currentWord (gameState s)).
  change (with_gameState ?a (with_gameState _ s)) with (with_gameState a s).
  destruct (String.eqb text (currentWord (gameState s))).
  - unfold handleCorrectWord, restartWordTimer, startWordTimer, getSettings, getGameState,
      setGameState, dateNow, bind, gets, ret, modify.
    rewrite !getNextWord_with_gameState by reflexivity.
    destruct (getNextWord s) as [w s2]. cbn.
    destruct p, o, z, (isPlaying (gameState s)), (isGameOver (gameState s)), (isPaused (gameState s));
      split; reflexivity.
  - destruct (_ <=? _).
    + unfold handleIncorrectWord, restartWordTimer, startWordTimer, getSettings, getGameState,
        setGameState, dateNow, bind, gets, ret, modify.
      rewrite !getNextWord_with_gameState by reflexivity.
      destruct (getNextWord s) as [w s2]. cbn.
      destruct p, o, z, (isPlaying (gameState s)), (isGameOver (gameState s)), (isPaused (gameState s));
        split; reflexivity.
    + split; reflexivity.
Qed.

(** C10 (counterexample). After [endGame] the session is Over but keeps its
    current word "the"; an empty input there is no commit: the call only
    stores the input, and [totalWords] stays 0. *)
Lemma processInput_over_counterexample :
  let o := snd (endGame startedService) in
  isGameOver (gameState o) = true /\ isPlaying (gameState o) = false /\
  currentWord (gameState o) = "the" /\
  isCorrect (fst (processInput "" o)) = false /\
  totalWords (gameState (snd (processInput "" o))) = 0 /\
  currentWord (gameState (snd (processInput "" o))) = "the".
Proof. vm_compute. repeat split. Qed.

(** C10 (amended). [processInput] checks no phase. Replacing the three
    phase flags [isPlaying], [isGameOver], [isPaused] of a session by any
    values [p], [o], [z] changes neither the result of [processInput text]
    nor the service it leaves, except that the flags stay [p], [o], [z] and
    the word timer is subscribed or not by them. In every phase the input is
    checked against [currentWord]: the same text is a correct commit (one
    more correct word and word, the streak up by one, the input cleared, a
    next word fetched), a different text at least as long is an incorrect
    commit, and a shorter text is only stored as the input. When
    [currentWord] is empty (the Idle state of a new or reset service) every
    call commits a word, a correct one for the empty input and an incorrect
    one otherwise. On the Idle service an empty input counts one correct
    word and fetches the first word; on a Paused session typing the current
    word is a correct commit; after [endGame] (Over) the current word "the"
    is kept, typing it is a correct commit, and "th" is only stored. *)
Theorem processInput_no_phase_check (s : Service) (text : string) (p o z : bool) :
  let g := gameState s in
  let s0 := with_gameState (set_flags p o z g) s in
  let s1 := with_gameState (set_userInput text g) s in
  let r := fst (processInput text s) in
  let s' := snd (processInput text s) in
  let g' := gameState s' in
  fst (processInput text s0) = r /\
  with_wordTimerSubscription (wordTimerSubscription s') (snd (processInput text s0)) =
    with_gameState (set_flags p o z g') s' /\
  (text = currentWord g ->
     isCorrect r = true /\ correctWords g' = correctWords g + 1 /\
     totalWords g' = totalWords g + 1 /\ streak g' = streak g + 1 /\
     userInput g' = "" /\ currentWord g' = fst (getNextWord s1)) /\
  (text <> currentWord g -> js_length (currentWord g) <= js_length text ->
     isCorrect r = false /\ incorrectCommit g g' (fst (getNextWord s1))) /\
  (js_length text < js_length (currentWord g) ->
     isCorrect r = false /\ g' = set_userInput text g) /\
  (currentWord g = "" ->
     totalWords g' = totalWords g + 1 /\ userInput g' = "" /\
     currentWord g' = fst (getNextWord s1) /\
     (text = "" -> isCorrect r = true /\ correctWords g' = correctWords g + 1 /\
                   streak g' = streak g + 1) /\
     (text <> "" -> isCorrect r = false /\ mistakes g' = mistakes g + 1 /\
                    streak g' = 0 /\ score g' = score g)) /\
  (isPlaying (gameState freshService) = false /\ isGameOver (gameState freshService) = false /\
   totalWords (gameState (snd (processInput "" freshService))) = 1 /\
   correctWords (gameState (snd (processInput "" freshService))) = 1 /\
   currentWord (gameState (snd (processInput "" freshService))) = "the") /\
  (let q := snd (pauseGame startedService) in
   isPaused (gameState q) = true /\
   correctWords (gameState (snd (processInput "the" q))) = 1) /\
  (let e := snd (endGame startedService) in
   isGameOver (gameState e) = true /\ isPlaying (gameState e) = false /\
   correctWords (gameState (snd (processInput "the" e))) = 1 /\
   totalWords (gameState (snd (processInput "th" e))) = 0 /\
   userInput (gameState (snd (processInput "th" e))) = "th").
Proof.
  cbn zeta.
  destruct (processInput_flags s text p o z) as [F1 F2]. cbn zeta in F1, F2.
  split; [exact F1|]. split; [exact F2|].
  assert (Hconc :
    (isPlaying (gameState freshService) = false /\ isGameOver (gameState freshService) = false /\
     totalWords (gameState (snd (processInput "" freshService))) = 1 /\
     correctWords (gameState (snd (processInput "" freshService))) = 1 /\
     currentWord (gameState (snd (processInput "" freshService))) = "the") /\
    (isPaused (gameState (snd (pauseGame startedService))) = true /\
     correctWords (gameState (snd (processInput "the" (snd (pauseGame startedService))))) = 1) /\
    (isGameOver (gameState (snd (endGame startedService))) = true /\
     isPlaying (gameState (snd (endGame startedService))) = false /\
     correctWords (gameState (snd (processInput "the" (snd (endGame startedService))))) = 1 /\
     totalWords (gameState (snd (processInput "th" (snd (endGame startedService))))) = 0 /\
     userInput (gameState (snd (processInput "th" (snd (endGame startedService))))) = "th"))
    by (vm_compute; repeat split).
  rewrite processInput_unfold. cbn zeta.
  set (t := msToSeconds (now s - wordStartTime s)).
  pose proof (handleCorrectWord_effect (with_gameState (set_userInput text (gameState s)) s) t) as EC.
  cbn zeta in EC. destruct EC as (C1 & _ & C3 & _ & C5 & C6 & _ & C8 & C9 & _).
  pose proof (handleIncorrectWord_effect (with_gameState (set_userInput text (gameState s)) s) t) as EI.
  cbn zeta in EI. destruct EI as (I1 & I2 & I3 & I4 & I5 & I6 & I7 & I8 & I9 & _).
  cbn [gameState with_gameState set_userInput currentWord userInput score correctWords totalWords
       streak mistakes multiplier] in C1, C3, C5, C6, C8, I1, I2, I3, I4, I5, I6, I7, I8.
  destruct (String.eqb text (currentWord (gameState s))) eqn:E.
  - apply String.eqb_eq in E.
    split; [intros _; rewrite C1, C3, C5, C6, C8, C9; repeat split|].
    split; [intros H; contradiction|].
    split; [intros H; rewrite E in H; lia|].
    split; [|exact Hconc].
    intros Hcw. rewrite C6, C8, C9, C1, C5, C3.
    split; [reflexivity|]. split; [reflexivity|]. split; [reflexivity|].
    split; [intros _; repeat split|]. intros H. rewrite E, Hcw in H. contradiction.
  - apply String.eqb_neq in E.
    split; [intros H; contradiction|].
    destruct (js_length (currentWord (gameState s)) <=? js_length text) eqn:L.
    + apply Z.leb_le in L.
      split; [intros _ _; rewrite I1; split; [reflexivity|]|].
      { unfold incorrectCommit. rewrite I2, I3, I4, I5, I6, I7, I8, I9. repeat split. }
      split; [intros H; lia|].
      split; [|exact Hconc].
      intros Hcw. rewrite I6, I8, I9, I1, I7, I3, I2.
      split; [reflexivity|]. split; [reflexivity|]. split; [reflexivity|].
      split; [intros H; rewrite H, Hcw in E; contradiction|]. intros _; repeat split.
    + apply Z.leb_gt in L.
      split; [intros _ H; lia|].
      split; [intros _; split; reflexivity|].
      split; [|exact Hconc].
      intros Hcw. exfalso. rewrite Hcw in L. unfold js_length in L. simpl in L. lia.
Qed.

(** The Idle service has the empty current word; an input "x" there is an
    incorrect commit. *)
Lemma processInput_no_phase_check_witness :
  currentWord (gameState freshService) = "" /\
  mistakes (gameState (snd (processInput "x" freshService))) = 1.
Proof.
  assert (H : currentWord (gameState freshService) = "") by reflexivity.
  split; [exact H|].
  destruct (processInput_no_phase_check freshService "x" false false false)
    as (_ & _ & _ & _ & _ & Hx & _).
  destruct (Hx H) as (_ & _ & _ & _ & Hi).
  destruct (Hi ltac:(discriminate)) as (_ & Hm & _).
  rewrite Hm. reflexivity.
Defined.

(** * Further properties of the services *)

(** ** [GameService] sessions *)
Lemma Math_round_nonneg (x : Q) : (0 <= x)%Q -> 0 <= Math_round x.
Proof.
  intros H. unfold Math_round. change 0 with (Qfloor 0).
  apply Qfloor_resp_le. apply (Qle_trans _ x); [exact H|].
  rewrite <- (Qplus_0_r x) at 1. apply Qplus_le_compat; [apply Qle_refl|discriminate].
Qed.

Lemma fl_one : (fl 1 == 1)%Q.
Proof. apply (fl_exact 1 1 0); [reflexivity|lia|lia]. Qed.

Lemma fl_100 : (fl 100 == 100)%Q.
Proof. apply (fl_exact 100 100 0); [reflexivity|lia|lia]. Qed.

Lemma Math_round_le (x : Q) (n : Z) : (x <= inject_Z n)%Q -> Math_round x <= n.
Proof.
  intros H. unfold Math_round.
  rewrite <- (Qfloor_unique (inject_Z n + (1 # 2)) n) by lra.
  apply Qfloor_resp_le. lra.
Qed.

(** [Math.round(x * 100)] in doubles, for a ratio [x] between 0 and 1. *)
Lemma percent_round_bounds (x : Q) : (0 <= x <= 1)%Q ->
  0 <= Math_round (fl (fl x * 100)) <= 100.
Proof.
  intros [H0 H1].
  assert (A0 : (0 <= fl x)%Q) by (apply fl_nonneg; exact H0).
  assert (A1 : (fl x <= 1)%Q).
  { apply (Qle_trans _ (fl 1)); [apply fl_mono; assumption|rewrite fl_one; apply Qle_refl]. }
  assert (B0 : (0 <= fl (fl x * 100))%Q) by (apply fl_nonneg; lra).
  assert (B1 : (fl (fl x * 100) <= 100)%Q).
  { apply (Qle_trans _ (fl 100)); [apply fl_mono; lra|rewrite fl_100; apply Qle_refl]. }
  split; [apply Math_round_nonneg; exact B0|apply Math_round_le; exact B1].
Qed.

Lemma specMultiplier_ge1 (k : Z) : 0 <= k -> (1 <= specMultiplier k)%Q.
Proof.
  intros H. unfold specMultiplier. apply Q.min_glb; [discriminate|].
  rewrite <- (Qplus_0_r 1) at 1. apply Qplus_le_compat; [apply Qle_refl|].
  apply (Qmult_le_0_compat); [|discriminate].
  change 0%Q with (inject_Z 0). rewrite <- Zle_Qle. apply Z.div_pos; lia.
Qed.

Lemma handleCorrectWord_step (s : Service) (t : Q) :
  correctStep (gameState s) (gameState (snd (handleCorrectWord t s))).
Proof.
  pose proof (handleCorrectWord_effect s t) as E. cbn zeta in E.
  destruct E as (_ & E2 & E3 & E4 & E5 & E6 & E7 & _ & _ & _ & _ & _ & _ & E14 & _).
  exists (currentWord (gameState s)).
  rewrite E3, E5, E6, E7, E14, E4, Math_floor_div10.
  split; [reflexivity|]. split; [reflexivity|]. split; [reflexivity|].
  split; [reflexivity|]. split; [reflexivity|]. split; [apply Qeq_refl|].
  intros Hk Hm. rewrite E2, Math_floor_div5.
  enough (0 <= Math_round (inject_Z (js_length (currentWord (gameState s)) * 10
                 + Z.max 0 (Math_round (fl (fl (3 - t) * 5))) + streak (gameState s) / 5 * 50)
                 * multiplier (gameState s))%Q) by lia.
  apply Math_round_nonneg. apply Qmult_le_0_compat; [|exact Hm].
  change 0%Q with (inject_Z 0). rewrite <- Zle_Qle. unfold js_length.
  assert (0 <= streak (gameState s) / 5) by (apply Z.div_pos; lia). lia.
Qed.

Lemma handleIncorrectWord_step (s : Service) (t : Q) :
  incorrectStep (gameState s) (gameState (snd (handleIncorrectWord t s))).
Proof.
  pose proof (handleIncorrectWord_effect s t) as E. cbn zeta in E.
  destruct E as (_ & E2 & E3 & E4 & E5 & E6 & E7 & _ & _ & _ & _ & _ & _ & E14 & _).
  exists (currentWord (gameState s)). repeat split; assumption.
Qed.

Lemma endGame_counters (s : Service) :
  counters (gameState (snd (endGame s))) = counters (gameState s).
Proof. reflexivity. Qed.

Lemma bind_ret_tt_snd {A : Type} (m : M A) (s : Service) :
  snd ((_ <- m;; ret tt) s) = snd (m s).
Proof. unfold bind, ret. destruct (m s); reflexivity. Qed.

Lemma wordTimerTick_cases (s : Service) :
  gameState (snd (wordTimerTick s)) = gameState s \/ snd (wordTimerTick s) = snd (skipWord s).
Proof.
  unfold wordTimerTick, secondsSinceWordStart, getGameState, getSettings, dateNow,
    bind, gets, ret, modify.
  destruct (wordTimerSubscription s); simpl; [|left; reflexivity].
  destruct (_ && _ && _ && _); simpl; [|left; reflexivity].
  destruct (Qle_bool _ _); [right|left]; reflexivity.
Qed.

Lemma step_counterStep (o : Op) (s : Service) :
  isRestart o = false -> counterStep (gameState s) (gameState (snd (step o s))).
Proof.
  intros Hr. unfold counterStep.
  destruct o as [c| | | |i| |t|]; try discriminate; simpl.
  - left. unfold pauseGame, updateGameState, getGameState, setGameState, stopTimers,
      startGameTimer, startWordTimer, getSettings, bind, gets, ret, modify. simpl.
    destruct (negb _); reflexivity.
  - left. reflexivity.
  - rewrite bind_ret_tt_snd, processInput_unfold. cbn zeta.
    destruct (String.eqb _ _).
    + right; left. pose proof (handleCorrectWord_step
        (with_gameState (set_userInput i (gameState s)) s)
        (msToSeconds (now s - wordStartTime s))) as H.
      destruct (handleCorrectWord _ _) as [r s']. exact H.
    + destruct (_ <=? _).
      * right; right. pose proof (handleIncorrectWord_step
          (with_gameState (set_userInput i (gameState s)) s)
          (msToSeconds (now s - wordStartTime s))) as H.
        destruct (handleIncorrectWord _ _) as [r s']. exact H.
      * left. reflexivity.
  - right; right. rewrite skipWord_unfold. apply handleIncorrectWord_step.
  - destruct t as [| |ms]; simpl.
    + left. unfold gameTimerTick, updateGameState, getGameState, setGameState, endGame,
        stopTimers, bind, gets, ret, modify.
      destruct (timerSubscription s); simpl; [|reflexivity].
      destruct (_ && _); simpl; [|reflexivity].
      destruct (_ <=? 0); reflexivity.
    + destruct (wordTimerTick_cases s) as [W|W]; rewrite W; [left; reflexivity|].
      right; right. rewrite skipWord_unfold. apply handleIncorrectWord_step.
    + left; reflexivity.
  - left. unfold timeoutTick, endGame, stopTimers, updateGameState, getGameState,
      setGameState, dateNow, bind, gets, ret, modify.
    destruct (timeouts s) as [|t0 r]; simpl; [reflexivity|].
    destruct (t0 <=? now s); reflexivity.
Qed.

Lemma startGame_counters (c : option GameSettings) (s : Service) :
  counters (gameState (snd (startGame c s))) = counters getInitialState.
Proof.
  unfold startGame, getSettings, setGameState, dateNow, startGameTimer, startWordTimer,
    bind, gets, ret, modify.
  destruct c; simpl;
  repeat match goal with |- context [match ?m with pair _ _ => _ end] => destruct m end;
  reflexivity.
Qed.

Lemma sessionInvariant_initial : sessionInvariant getInitialState.
Proof. unfold sessionInvariant; simpl. repeat split; try lia. Qed.

Lemma sessionInvariant_counters (g g' : GameState) :
  counters g' = counters g -> sessionInvariant g -> sessionInvariant g'.
Proof.
  unfold counters, sessionInvariant. intros H. injection H as H1 H2 H3 H4 H5 H6 H7.
  rewrite H1, H2, H3, H4, H5, H6, H7; auto.
Qed.

Lemma sessionInvariant_counterStep (g g' : GameState) :
  sessionInvariant g -> counterStep g g' -> sessionInvariant g'.
Proof.
  intros I [C | [C | C]].
  - exact (sessionInvariant_counters g g' C I).
  - destruct C as (w & C1 & C2 & C3 & C4 & C5 & C6 & C7).
    destruct I as (I1 & I2 & I3 & I4 & I5 & I6).
    assert (Hm : (0 <= multiplier g)%Q).
    { rewrite I5. apply (Qle_trans _ 1); [discriminate|]. apply specMultiplier_ge1. lia. }
    specialize (C7 ltac:(lia) Hm).
    unfold sessionInvariant. rewrite C1, C2, C3, C4, C5, length_app. simpl.
    rewrite <- C1. repeat split; try lia. exact C6.
  - destruct C as (w & C1 & C2 & C3 & C4 & C5 & C6 & C7).
    destruct I as (I1 & I2 & I3 & I4 & I5 & I6).
    unfold sessionInvariant. rewrite C1, C2, C3, C4, C5, C6, C7, length_app. simpl.
    repeat split; try lia; try reflexivity.
Qed.

Lemma step_sessionInvariant (o : Op) (s : Service) :
  sessionInvariant (gameState s) -> sessionInvariant (gameState (snd (step o s))).
Proof.
  intros I. destruct (isRestart o) eqn:R.
  - destruct o; try discriminate; simpl.
    + eapply sessionInvariant_counters; [apply startGame_counters|apply sessionInvariant_initial].
    + apply sessionInvariant_initial.
  - exact (sessionInvariant_counterStep _ _ I (step_counterStep o s R)).
Qed.

Lemma runOps_snd (o : Op) (os : list Op) (s : Service) :
  snd (runOps (o :: os) s) = snd (runOps os (snd (step o s))).
Proof. simpl. unfold bind. destruct (step o s); reflexivity. Qed.

Lemma accuracyPercentage_bounds (g : GameState) :
  sessionInvariant g -> 0 <= accuracyPercentage g <= 100.
Proof.
  intros (I1 & I2 & I3 & _). unfold accuracyPercentage.
  destruct (0 <? totalWords g) eqn:T; [|lia]. apply Z.ltb_lt in T.
  apply percent_round_bounds.
  destruct (totalWords g) as [|p|p] eqn:Tw; try lia.
  unfold Qle, Qdiv, Qmult, Qinv, inject_Z; simpl. split; nia.
Qed.

Lemma wpmCurrent_nonneg (s : Service) :
  sessionInvariant (gameState s) -> 0 <= wpmCurrent s.
Proof.
  intros (I1 & _). unfold wpmCurrent. cbn zeta.
  set (e := fl (inject_Z _ / 60)).
  destruct (Qltb 0 e) eqn:E; [|lia].
  apply Math_round_nonneg, fl_nonneg. unfold Qltb in E. apply negb_true_iff in E.
  assert (He : (0 < e)%Q).
  { apply Qnot_le_lt. intros C. apply Qle_bool_iff in C. congruence. }
  apply Qle_shift_div_l; [exact He|]. rewrite Qmult_0_l.
  change 0%Q with (inject_Z 0). rewrite <- Zle_Qle. lia.
Qed.

Lemma counterStep_monotone (g g' : GameState) :
  sessionInvariant g -> counterStep g g' ->
  score g <= score g' /\ correctWords g <= correctWords g' /\ mistakes g <= mistakes g' /\
  exists l, wordsTyped g' = app (wordsTyped g) l /\
            totalWords g' = totalWords g + Z.of_nat (length l).
Proof.
  intros I C. destruct I as (I1 & I2 & I3 & I4 & I5 & I6).
  destruct C as [C | [C | C]].
  - unfold counters in C. injection C as C1 C2 C3 C4 C5 C6 C7.
    rewrite C1, C2, C3, C4, C7. split; [lia|]. split; [lia|]. split; [lia|].
    exists []. rewrite app_nil_r. split; [reflexivity|simpl; lia].
  - destruct C as (w & C1 & C2 & C3 & C4 & C5 & C6 & C7).
    assert (Hm : (0 <= multiplier g)%Q).
    { rewrite I5. apply (Qle_trans _ 1); [discriminate|]. apply specMultiplier_ge1. lia. }
    specialize (C7 ltac:(lia) Hm).
    split; [lia|]. split; [lia|]. split; [lia|].
    exists [w]. split; [exact C5|simpl; lia].
  - destruct C as (w & C1 & C2 & C3 & C4 & C5 & C6 & C7).
    split; [lia|]. split; [lia|]. split; [lia|].
    exists [w]. split; [exact C6|simpl; lia].
Qed.

Lemma tick_not_playing (t : Tick) (s : Service) :
  isPlaying (gameState s) = false -> gameState (snd (tick t s)) = gameState s.
Proof.
  intros H. destruct t; simpl.
  - exact (gameTimerTick_not_playing s H).
  - unfold wordTimerTick, secondsSinceWordStart, getGameState, dateNow, bind, gets, ret, modify.
    destruct (wordTimerSubscription s); simpl; [|reflexivity].
    rewrite H, andb_false_r. reflexivity.
  - reflexivity.
Qed.

Lemma getNextCustomWord_timeouts (s : Service) :
  exists l, timeouts (snd (getNextCustomWord s)) = app (timeouts s) l /\
            now (snd (getNextCustomWord s)) = now s.
Proof.
  destruct (customTextWords s) eqn:W.
  - exists []. unfold getNextCustomWord, bind, gets, ret. rewrite W. simpl.
    rewrite app_nil_r. split; reflexivity.
  - assert (Hne : customTextWords s <> []) by congruence.
    pose proof (getNextCustomWord_step s Hne) as (_ & _ & _ & _ & N & T).
    destruct T as [T | (_ & T)].
    + exists []. rewrite T, app_nil_r. split; [reflexivity|exact N].
    + exists [now s + 100]. split; [exact T|exact N].
Qed.

Lemma startGame_timeouts (c : option GameSettings) (s : Service) :
  (exists l, timeouts (snd (startGame c s)) = app (timeouts s) l) /\
  now (snd (startGame c s)) = now s /\ isPlaying (gameState (snd (startGame c s))) = true.
Proof.
  unfold startGame, getSettings, setGameState, dateNow, startGameTimer, startWordTimer,
    initializeCustomText, getRandomWord, bind, gets, ret, modify.
  destruct c as [c|]; simpl;
  repeat match goal with
    | |- context [if ?b then _ else _] => destruct b
    | |- context [match customText ?c with _ => _ end] => destruct (customText c)
    end; simpl;
  try (split; [exists []; rewrite app_nil_r; reflexivity | split; reflexivity]);
  match goal with |- context [getNextCustomWord ?x] =>
    destruct (getNextCustomWord_timeouts x) as (l & T & N);
    destruct (getNextCustomWord x) as [w s2] end;
  simpl in T, N |- *;
  (split; [exists l; exact T|]); (split; [exact N|reflexivity]).
Qed.

Lemma skipn_nth_cons {A : Type} (i : nat) (l : list A) (d : A) :
  (i < length l)%nat -> skipn i l = nth i l d :: skipn (S i) l.
Proof.
  revert l. induction i as [|i IH]; intros [|a l] H; simpl in *; try lia; [reflexivity|].
  apply IH. lia.
Qed.

Lemma serveCustomWords_S (k : nat) (s : Service) :
  serveCustomWords (S k) s =
  (let (w, s1) := getNextCustomWord s in
   let (ws, s2) := serveCustomWords k s1 in (w :: ws, s2)).
Proof. reflexivity. Qed.

(** X1. Along any sequence of public [GameService] operations and timer
    events, the session counters stay consistent: the streak lies between 0
    and the number of correct words, correct words plus mistakes make the
    total, one typed-word entry is kept per word, the multiplier follows the
    streak and the score is non-negative; [accuracyPercentage] stays within
    0..100 and [wpmCurrent] is never negative. *)
Theorem session_invariant_runOps (os : list Op) (s : Service)
  (HI : sessionInvariant (gameState s)) :
  let s' := snd (runOps os s) in
  sessionInvariant (gameState s') /\
  0 <= accuracyPercentage (gameState s') <= 100 /\ 0 <= wpmCurrent s'.
Proof.
  cbn zeta. revert s HI. induction os as [|o os IH]; intros s HI.
  - simpl. split; [exact HI|]. split; [apply accuracyPercentage_bounds, HI|].
    apply wpmCurrent_nonneg, HI.
  - rewrite runOps_snd. apply IH. apply step_sessionInvariant, HI.
Qed.

(** A fresh service, a session started and three words handled. *)
Lemma session_invariant_runOps_witness :
  sessionInvariant (gameState freshService) /\
  (let s' := snd (runOps [OpStartGame None; OpProcessInput "the"; OpProcessInput "quack";
                          OpSkipWord; OpPauseGame; OpEndGame] freshService) in
   sessionInvariant (gameState s') /\
   0 <= accuracyPercentage (gameState s') <= 100 /\ 0 <= wpmCurrent s').
Proof.
  assert (H : sessionInvariant (gameState freshService)) by exact sessionInvariant_initial.
  split; [exact H|].
  exact (session_invariant_runOps _ freshService H).
Defined.

(** X2. Without [startGame] or [resetGame], no operation decreases the score,
    the correct words or the mistakes, and the typed-word history only grows
    at its end, by one entry per counted word. *)
Theorem session_history_append_only (os : list Op) (s : Service)
  (HI : sessionInvariant (gameState s))
  (HR : Forall (fun o => isRestart o = false) os) :
  let g := gameState s in
  let g' := gameState (snd (runOps os s)) in
  score g <= score g' /\ correctWords g <= correctWords g' /\ mistakes g <= mistakes g' /\
  exists l, wordsTyped g' = app (wordsTyped g) l /\
            totalWords g' = totalWords g + Z.of_nat (length l).
Proof.
  cbn zeta. revert s HI. induction HR as [|o os Ho HR IH]; intros s HI.
  - simpl. split; [lia|]. split; [lia|]. split; [lia|].
    exists []. rewrite app_nil_r. split; [reflexivity|simpl; lia].
  - rewrite runOps_snd.
    pose proof (step_counterStep o s Ho) as C.
    destruct (counterStep_monotone _ _ HI C) as (M1 & M2 & M3 & l1 & L1 & T1).
    destruct (IH _ (step_sessionInvariant o s HI)) as (N1 & N2 & N3 & l2 & L2 & T2).
    split; [lia|]. split; [lia|]. split; [lia|].
    exists (app l1 l2). rewrite L2, L1, app_assoc. split; [reflexivity|].
    rewrite T2, T1, length_app. lia.
Qed.

(** Two inputs and a skip on a fresh service, with no restart. *)
Lemma session_history_append_only_witness :
  sessionInvariant (gameState freshService) /\
  Forall (fun o => isRestart o = false) [OpProcessInput "x"; OpSkipWord; OpProcessInput "y"] /\
  (let g := gameState freshService in
   let g' := gameState (snd (runOps [OpProcessInput "x"; OpSkipWord; OpProcessInput "y"] freshService)) in
   score g <= score g' /\ correctWords g <= correctWords g' /\ mistakes g <= mistakes g' /\
   exists l, wordsTyped g' = app (wordsTyped g) l /\
             totalWords g' = totalWords g + Z.of_nat (length l)).
Proof.
  assert (H : sessionInvariant (gameState freshService)) by exact sessionInvariant_initial.
  assert (R : Forall (fun o => isRestart o = false) [OpProcessInput "x"; OpSkipWord; OpProcessInput "y"])
    by (repeat constructor).
  split; [exact H|]. split; [exact R|].
  exact (session_history_append_only _ freshService H R).
Defined.

(** X3. When no session is playing, fires of the game and word timers and the
    passing of time leave the game state unchanged. *)
Theorem stopped_session_ignores_timers (ts : list Tick) (s : Service)
  (H : isPlaying (gameState s) = false) :
  gameState (snd (runTicks ts s)) = gameState s.
Proof.
  revert s H. induction ts as [|t ts IH]; intros s H; [reflexivity|].
  simpl. unfold bind.
  pose proof (tick_not_playing t s H) as T.
  destruct (tick t s) as [u s1]. simpl in T. rewrite <- T in H |- *.
  apply IH, H.
Qed.

(** Timer fires and elapsed time on the idle fresh service. *)
Lemma stopped_session_ignores_timers_witness :
  isPlaying (gameState freshService) = false /\
  gameState (snd (runTicks (WordTick :: secondTicks 3) freshService)) = gameState freshService.
Proof.
  assert (H : isPlaying (gameState freshService) = false) by reflexivity.
  split; [exact H|].
  exact (stopped_session_ignores_timers _ freshService H).
Defined.

(** X4. A pending [setTimeout(endGame, 100)] is not cancelled by [resetGame]
    or [startGame]: when it is due, it ends the new session and stops both of
    its timers. *)
Theorem pending_endGame_survives_restart (s : Service) (c : option GameSettings)
  (t : Z) (rest : list Z) (Hts : timeouts s = t :: rest) (Hdue : t <= now s) :
  let s1 := snd (startGame c (snd (resetGame s))) in
  let s2 := snd (timeoutTick s1) in
  isPlaying (gameState s1) = true /\
  isGameOver (gameState s2) = true /\ isPlaying (gameState s2) = false /\
  timerSubscription s2 = false /\ wordTimerSubscription s2 = None.
Proof.
  cbn zeta.
  pose proof (startGame_timeouts c (snd (resetGame s))) as ((l & T) & N & P).
  set (s1 := snd (startGame c (snd (resetGame s)))) in *.
  assert (T' : timeouts s1 = t :: app rest l) by (rewrite T; simpl; rewrite Hts; reflexivity).
  assert (N' : (t <=? now s1) = true) by (apply Z.leb_le; rewrite N; exact Hdue).
  split; [exact P|].
  unfold timeoutTick, endGame, stopTimers, updateGameState, getGameState, setGameState,
    dateNow, bind, gets, ret, modify.
  rewrite T'. simpl. rewrite N'. simpl. repeat split.
Qed.

(** A pending [endGame] due at time 0 when the service is reset and
    restarted. *)
Lemma pending_endGame_survives_restart_witness :
  timeouts (with_timeouts [0] freshService) = 0 :: [] /\
  0 <= now (with_timeouts [0] freshService) /\
  (let s1 := snd (startGame None (snd (resetGame (with_timeouts [0] freshService)))) in
   let s2 := snd (timeoutTick s1) in
   isPlaying (gameState s1) = true /\
   isGameOver (gameState s2) = true /\ isPlaying (gameState s2) = false /\
   timerSubscription s2 = false /\ wordTimerSubscription s2 = None).
Proof.
  assert (T : timeouts (with_timeouts [0] freshService) = 0 :: []) by reflexivity.
  assert (N : 0 <= now (with_timeouts [0] freshService)) by (simpl; lia).
  split; [exact T|]. split; [exact N|].
  exact (pending_endGame_survives_restart _ None 0 [] T N).
Defined.

(** X5. With custom text, [k] successive calls of [getNextCustomWord] from
    index [i] serve the words [i .. i+k-1] of the text in order and leave the
    index at [(i+k) mod n]; the text and the game state are unchanged. *)
Theorem custom_words_served_in_order (k : nat) (s : Service)
  (Hne : customTextWords s <> [])
  (Hi : (customTextIndex s < length (customTextWords s))%nat)
  (Hk : (customTextIndex s + k <= length (customTextWords s))%nat) :
  let words := customTextWords s in
  let s' := snd (serveCustomWords k s) in
  fst (serveCustomWords k s) = firstn k (skipn (customTextIndex s) words) /\
  customTextIndex s' = Nat.modulo (customTextIndex s + k) (length words) /\
  customTextWords s' = words /\ gameState s' = gameState s.
Proof.
  cbn zeta. revert s Hne Hi Hk. induction k as [|k IH]; intros s Hne Hi Hk.
  - simpl. rewrite Nat.add_0_r, Nat.mod_small by exact Hi. repeat split.
  - rewrite serveCustomWords_S.
    pose proof (getNextCustomWord_step s Hne) as (G1 & G2 & G3 & G4 & _).
    cbn zeta in G1, G2, G3, G4.
    destruct (getNextCustomWord s) as [w s1]. simpl in G1, G2, G3, G4.
    set (n := length (customTextWords s)) in *.
    assert (Hn : n <> 0%nat) by lia.
    assert (Hi1 : (customTextIndex s1 < length (customTextWords s1))%nat).
    { rewrite G3, G2. apply Nat.mod_upper_bound. exact Hn. }
    rewrite (skipn_nth_cons (customTextIndex s) (customTextWords s) "" Hi).
    destruct k as [|k].
    + simpl. rewrite G1, G2, G3, G4. repeat split.
    + assert (Hlt : (customTextIndex s + 1 < n)%nat) by lia.
      assert (Hidx : customTextIndex s1 = (customTextIndex s + 1)%nat)
        by (rewrite G3; apply Nat.mod_small, Hlt).
      assert (Hne1 : customTextWords s1 <> []) by (rewrite G2; exact Hne).
      assert (Hk1 : (customTextIndex s1 + S k <= length (customTextWords s1))%nat)
        by (rewrite Hidx, G2; fold n; lia).
      destruct (IH s1 Hne1 Hi1 Hk1) as (I1 & I2 & I3 & I4).
      destruct (serveCustomWords (S k) s1) as [ws s2]. simpl in I1, I2, I3, I4 |- *.
      rewrite I1, I2, I3, I4, Hidx, G2, G4, G1, Nat.add_1_r.
      split; [reflexivity|]. split; [f_equal; lia|split; reflexivity].
Qed.

(** Two words served from the custom text "The cat, sat.". *)
Lemma custom_words_served_in_order_witness :
  customTextWords (startedCustom "The cat, sat.") <> [] /\
  (customTextIndex (startedCustom "The cat, sat.") <
     length (customTextWords (startedCustom "The cat, sat.")))%nat /\
  (customTextIndex (startedCustom "The cat, sat.") + 2 <=
     length (customTextWords (startedCustom "The cat, sat.")))%nat /\
  fst (serveCustomWords 2 (startedCustom "The cat, sat.")) = ["cat"; "sat"].
Proof.
  assert (Hne : customTextWords (startedCustom "The cat, sat.") <> [])
    by (intros C; vm_compute in C; discriminate C).
  assert (Hi : (customTextIndex (startedCustom "The cat, sat.") <
                length (customTextWords (startedCustom "The cat, sat.")))%nat)
    by (apply Nat.ltb_lt; vm_compute; reflexivity).
  assert (Hk : (customTextIndex (startedCustom "The cat, sat.") + 2 <=
                length (customTextWords (startedCustom "The cat, sat.")))%nat)
    by (apply Nat.leb_le; vm_compute; reflexivity).
  split; [exact Hne|]. split; [exact Hi|]. split; [exact Hk|].
  destruct (custom_words_served_in_order 2 _ Hne Hi Hk) as (E & _).
  rewrite E. vm_compute. reflexivity.
Defined.

(** ** [WordService] *)

Lemma pick_In (r : Q) (l : list string) :
  (0 <= r < 1)%Q -> l <> [] -> In (WordService.pick r l) l.
Proof.
  intros [H0 H1] Hne. unfold WordService.pick, Math_floor.
  set (n := Z.of_nat (length l)).
  assert (Hn : 0 < n) by (unfold n; destruct l; [contradiction|simpl; lia]).
  set (x := (r * inject_Z n)%Q).
  assert (Hx0 : (0 <= x)%Q) by (apply Qmult_le_0_compat; [exact H0|
    change 0%Q with (inject_Z 0); rewrite <- Zle_Qle; lia]).
  assert (Hx1 : (x < inject_Z n)%Q).
  { unfold x. rewrite <- (Qmult_1_l (inject_Z n)) at 2.
    apply Qmult_lt_r; [change 0%Q with (inject_Z 0); rewrite <- Zlt_Qlt; lia|exact H1]. }
  assert (F0 : 0 <= Qfloor x) by (change 0 with (Qfloor 0); apply Qfloor_resp_le, Hx0).
  assert (F1 : Qfloor x < n).
  { rewrite Zlt_Qlt. apply (Qle_lt_trans _ x); [apply Qfloor_le|exact Hx1]. }
  apply nth_In. unfold n in F1. lia.
Qed.

(** X6. For a random draw in [0, 1), [WordService.getRandomWord] fails only
    on an unknown category or difficulty, and otherwise returns a word of the
    category, within the difficulty's length range whenever some word of the
    category fits it; when none fits it falls back to the whole category, so
    a Basic word has 3 letters at every difficulty and an Advanced word has at
    least 10 letters even at Easy or Medium. *)
Theorem getRandomWord_in_range (r : Q) (Hr : (0 <= r < 1)%Q) (category difficulty : string) :
  match WordService.getRandomWord r category difficulty with
  | inl _ => WordService.findCategory category = None \/
             WordService.findDifficulty difficulty = None
  | inr w => exists cd dd,
      WordService.findCategory category = Some cd /\
      WordService.findDifficulty difficulty = Some dd /\
      In w (WordService.words cd) /\
      (WordService.filteredWords cd dd <> [] ->
       WordService.minLength dd <= js_length w <= WordService.maxLength dd)
  end /\
  (forall d, In d ["Medium"; "Hard"; "Expert"] ->
     exists w, WordService.getRandomWord r "Basic" d = inr w /\ js_length w = 3) /\
  (forall d, In d ["Easy"; "Medium"] ->
     exists w, WordService.getRandomWord r "Advanced" d = inr w /\ 10 <= js_length w).
Proof.
  assert (Hcat : forall c, In c WordService.categories -> WordService.words c <> []).
  { intros c Hc. simpl in Hc.
    repeat (destruct Hc as [Hc|Hc]; [subst c; discriminate|]); contradiction. }
  assert (Hcat' : forall cat c, WordService.findCategory cat = Some c ->
                  WordService.words c <> []).
  { intros cat c Hf. apply Hcat. apply (find_some _ _ Hf). }
  split; [|split].
  - unfold WordService.getRandomWord.
    destruct (WordService.findCategory category) as [cd|] eqn:Fc; [|left; reflexivity].
    destruct (WordService.findDifficulty difficulty) as [dd|] eqn:Fd; [|right; reflexivity].
    destruct (length (WordService.filteredWords cd dd) =? 0)%nat eqn:L;
    exists cd, dd; (split; [reflexivity|]); (split; [reflexivity|]).
    + apply Nat.eqb_eq, length_zero_iff_nil in L.
      split; [apply pick_In; [exact Hr|exact (Hcat' _ _ Fc)]|].
      intros C; contradiction.
    + apply Nat.eqb_neq in L.
      assert (Hne : WordService.filteredWords cd dd <> []) by (intros E; rewrite E in L; contradiction).
      pose proof (pick_In r _ Hr Hne) as Hin.
      unfold WordService.filteredWords in Hin. apply filter_In in Hin as [Hin Hp].
      apply andb_true_iff in Hp as [P1 P2]. apply Z.leb_le in P1, P2.
      split; [exact Hin|]. intros _. split; assumption.
  - intros d Hd.
    assert (Hall : Forall (fun w => js_length w = 3)
                     (WordService.words (nth 0 WordService.categories (WordService.mkWordCategory "" [])))).
    { apply Forall_forall. intros w Hw. simpl in Hw.
      repeat (destruct Hw as [Hw|Hw]; [subst w; reflexivity|]); contradiction. }
    simpl in Hd. destruct Hd as [Hd|[Hd|[Hd|[]]]]; subst d;
    (eexists; split; [reflexivity|]);
    (rewrite Forall_forall in Hall; apply Hall; apply pick_In; [exact Hr|discriminate]).
  - intros d Hd.
    assert (Hall : Forall (fun w => 10 <= js_length w)
                     (WordService.words (nth 3 WordService.categories (WordService.mkWordCategory "" [])))).
    { apply Forall_forall. intros w Hw. simpl in Hw.
      repeat (destruct Hw as [Hw|Hw]; [subst w; unfold js_length; simpl; lia|]); contradiction. }
    simpl in Hd. destruct Hd as [Hd|[Hd|[]]]; subst d;
    (eexists; split; [reflexivity|]);
    (rewrite Forall_forall in Hall; apply Hall; apply pick_In; [exact Hr|discriminate]).
Qed.

(** The draw [Math.random() = 1/2]. *)
Lemma getRandomWord_in_range_witness :
  (0 <= 1 # 2 < 1)%Q /\
  (forall d, In d ["Medium"; "Hard"; "Expert"] ->
     exists w, WordService.getRandomWord (1 # 2) "Basic" d = inr w /\ js_length w = 3).
Proof.
  assert (Hr : (0 <= 1 # 2 < 1)%Q) by (split; [apply Qle_bool_iff | apply Qlt_alt]; reflexivity).
  split; [exact Hr|].
  exact (proj1 (proj2 (getRandomWord_in_range _ Hr "Basic" "Medium"))).
Defined.

(** ** [ErrorFeedbackService] *)

Lemma ascii_toLower_idem (c : ascii) : ascii_toLower (ascii_toLower c) = ascii_toLower c.
Proof.
  pose proof (ascii_toLower_not_upper c) as H.
  set (d := ascii_toLower c) in *. unfold ascii_toLower.
  unfold is_ascii_upper in H. cbn zeta in H |- *. rewrite H. reflexivity.
Qed.

Lemma toLowerCase_idem (s : string) : toLowerCase (toLowerCase s) = toLowerCase s.
Proof. induction s as [|c r IH]; [reflexivity|]. simpl. rewrite ascii_toLower_idem, IH. reflexivity. Qed.

Lemma findPattern_some (t : ErrorFeedback.PatternType) :
  exists p, ErrorFeedback.findPattern t = Some p /\ ErrorFeedback.type p = t.
Proof. destruct t; eexists; split; reflexivity. Qed.

Section Sorting.
Context {A : Type} (f : A -> Z).


Lemma insert_desc_perm (x : A) (l : list A) : Permutation (ErrorFeedback.insert_desc f x l) (x :: l).
Proof.
  induction l as [|y r IH]; simpl; [reflexivity|].
  destruct (f x <=? f y); [|reflexivity].
  rewrite IH. apply perm_swap.
Qed.

Lemma insert_desc_sorted (x : A) (l : list A) :
  Sorted (desc_by f) l -> Sorted (desc_by f) (ErrorFeedback.insert_desc f x l).
Proof.
  induction l as [|y r IH]; intros S; simpl; [constructor; constructor|].
  destruct (f x <=? f y) eqn:E.
  - apply Z.leb_le in E. inversion S as [|? ? S1 H1]; subst.
    constructor; [exact (IH S1)|].
    destruct r as [|z r']; simpl; [constructor; exact E|].
    inversion H1; subst. destruct (f x <=? f z); constructor; [assumption|exact E].
  - apply Z.leb_gt in E. constructor; [exact S|constructor; unfold desc_by; lia].
Qed.

Lemma sort_desc_go (acc l : list A) :
  Sorted (desc_by f) acc ->
  Sorted (desc_by f) (fold_left (fun acc x => ErrorFeedback.insert_desc f x acc) l acc) /\
  Permutation (fold_left (fun acc x => ErrorFeedback.insert_desc f x acc) l acc) (app l acc).
Proof.
  revert acc. induction l as [|x r IH]; intros acc S; simpl; [split; [exact S|reflexivity]|].
  destruct (IH _ (insert_desc_sorted x acc S)) as [S' P]. split; [exact S'|].
  rewrite P, insert_desc_perm. symmetry. apply Permutation_middle.
Qed.

Lemma sort_desc_spec (l : list A) :
  Sorted (desc_by f) (ErrorFeedback.sort_desc f l) /\ Permutation (ErrorFeedback.sort_desc f l) l.
Proof.
  unfold ErrorFeedback.sort_desc. destruct (sort_desc_go [] l (Sorted_nil _)) as [S P].
  rewrite app_nil_r in P. split; assumption.
Qed.

End Sorting.

Lemma dedup_spec (seen l : list string) :
  NoDup (ErrorFeedback.dedup seen l) /\ (forall x, In x (ErrorFeedback.dedup seen l) -> ~ In x seen /\ In x l).
Proof.
  revert seen. induction l as [|x r IH]; intros seen; simpl.
  - split; [constructor|intros _ []].
  - destruct (existsb (String.eqb x) seen) eqn:E.
    + destruct (IH seen) as [N H]. split; [exact N|].
      intros y Hy. destruct (H y Hy) as [H1 H2]. split; [exact H1|right; exact H2].
    + destruct (IH (x :: seen)) as [N H]. split.
      * constructor; [|exact N]. intros Hx. destruct (H x Hx) as [H1 _]. apply H1. left; reflexivity.
      * intros y [Hy|Hy].
        -- subst y. split; [|left; reflexivity].
           intros Hin. assert (existsb (String.eqb x) seen = true)
             by (apply existsb_exists; exists x; split; [exact Hin|apply String.eqb_refl]).
           congruence.
        -- destruct (H y Hy) as [H1 H2]. split; [intros C; apply H1; right; exact C|right; exact H2].
Qed.

(** X7. [recordError] appends the new error to the session log and to the
    persistent log; the persistent log never exceeds 1000 entries (it is cut
    to its last 800 when it would reach 1001), the stored characters are
    lower-cased, the pattern is the classifier's, and [getErrorsForKey] with
    any casing of the expected character finds the new error. *)
Theorem recordError_bounded_log (nowMs : Z) (randomPart expectedChar actualChar word : string)
  (position : Z) (timeTaken : Q) (st : ErrorFeedback.ErrorStore)
  (H : (length (ErrorFeedback.errors st) <= 1000)%nat) :
  let st' := ErrorFeedback.recordError nowMs randomPart expectedChar actualChar word position timeTaken st in
  exists e,
    ErrorFeedback.sessionErrors st' = app (ErrorFeedback.sessionErrors st) [e] /\
    (length (ErrorFeedback.errors st') <= 1000)%nat /\
    (exists dropped, app (ErrorFeedback.errors st) [e] = app dropped (ErrorFeedback.errors st')) /\
    ((length (ErrorFeedback.errors st) < 1000)%nat -> ErrorFeedback.errors st' = app (ErrorFeedback.errors st) [e]) /\
    (length (ErrorFeedback.errors st) = 1000%nat -> length (ErrorFeedback.errors st') = 800%nat) /\
    ErrorFeedback.expectedChar e = toLowerCase expectedChar /\
    ErrorFeedback.actualChar e = toLowerCase actualChar /\
    ErrorFeedback.pattern e = ErrorFeedback.classifyError expectedChar actualChar timeTaken /\
    (forall k, toLowerCase k = toLowerCase expectedChar -> In e (ErrorFeedback.getErrorsForKey k st')).
Proof.
  cbn zeta. unfold ErrorFeedback.recordError. cbn zeta.
  match goal with |- context [app (ErrorFeedback.errors st) [?x]] => set (e := x) end.
  exists e. simpl.
  assert (Hk : forall k, toLowerCase k = toLowerCase expectedChar ->
             String.eqb (ErrorFeedback.expectedChar e) (toLowerCase k) = true)
    by (intros k Hk; rewrite Hk; apply String.eqb_refl).
  rewrite length_app. simpl.
  destruct (1000 <? length (ErrorFeedback.errors st) + 1)%nat eqn:C.
  - apply Nat.ltb_lt in C.
    assert (Hn : length (ErrorFeedback.errors st) = 1000%nat) by lia. rewrite Hn.
    simpl Nat.sub.
    rewrite skipn_app. replace (201 - length (ErrorFeedback.errors st))%nat with 0%nat by lia.
    simpl skipn at 2.
    split; [reflexivity|].
    split; [rewrite length_app, length_skipn; simpl; lia|].
    split; [exists (firstn 201 (ErrorFeedback.errors st)); rewrite app_assoc, firstn_skipn; reflexivity|].
    split; [intros; lia|].
    split; [intros _; rewrite length_app, length_skipn; simpl; lia|].
    split; [reflexivity|]. split; [reflexivity|]. split; [reflexivity|].
    intros k K. unfold ErrorFeedback.getErrorsForKey. simpl. apply filter_In. split.
    + apply in_or_app. right. left. reflexivity.
    + apply Hk, K.
  - apply Nat.ltb_ge in C.
    split; [reflexivity|]. split; [rewrite length_app; simpl; lia|].
    split; [exists []; reflexivity|]. split; [reflexivity|]. split; [intros; lia|].
    split; [reflexivity|]. split; [reflexivity|]. split; [reflexivity|].
    intros k K. unfold ErrorFeedback.getErrorsForKey. simpl. apply filter_In. split.
    + apply in_or_app. right. left. reflexivity.
    + apply Hk, K.
Qed.

(** One error recorded into an empty log. *)
Lemma recordError_bounded_log_witness :
  (length (ErrorFeedback.errors (ErrorFeedback.mkErrorStore [] [])) <= 1000)%nat /\
  (length (ErrorFeedback.errors
     (ErrorFeedback.recordError 0 "x" "A" "s" "as" 0 1 (ErrorFeedback.mkErrorStore [] []))) <= 1000)%nat.
Proof.
  assert (H : (length (ErrorFeedback.errors (ErrorFeedback.mkErrorStore [] [])) <= 1000)%nat)
    by (simpl; lia).
  split; [exact H|].
  destruct (recordError_bounded_log 0 "x" "A" "s" "as" 0 1 _ H) as (e & _ & L & _).
  exact L.
Defined.

Lemma sumZ_perm (l l' : list Z) : Permutation l l' -> sumZ l = sumZ l'.
Proof. induction 1; simpl in *; lia. Qed.

Lemma map_incr_sum {K : Type} (eqb : K -> K -> bool) (k : K) (m : list (K * Z)) :
  sumZ (map snd (ErrorFeedback.map_incr eqb k m)) = sumZ (map snd m) + 1.
Proof.
  induction m as [|[k' c] r IH]; simpl; [reflexivity|].
  destruct (eqb k k'); simpl; [lia|]. rewrite IH. lia.
Qed.

Lemma patternCounts_sum (errs : list ErrorFeedback.TypingError) (m : list (ErrorFeedback.PatternType * Z)) :
  sumZ (map snd (fold_left (fun m e => match ErrorFeedback.pattern e with
                              | Some p => ErrorFeedback.map_incr ErrorFeedback.PatternType_eqb (ErrorFeedback.type p) m
                              | None => m
                              end) errs m)) =
  sumZ (map snd m) + Z.of_nat (length (filter ErrorFeedback.hasPattern errs)).
Proof.
  revert m. induction errs as [|e r IH]; intros m; simpl; [lia|].
  rewrite IH. unfold ErrorFeedback.hasPattern. destruct (ErrorFeedback.pattern e); simpl; [rewrite map_incr_sum|]; lia.
Qed.

Lemma keyCounts_zero (k : string) (m : list (string * (Z * Z))) :
  Forall (fun '(_, (t, e)) => t = 0 /\ 1 <= e) m ->
  Forall (fun '(_, (t, e)) => t = 0 /\ 1 <= e) (ErrorFeedback.keyCounts_incr k m).
Proof.
  induction m as [|[k' [t e]] r IH]; intros F; simpl.
  - constructor; [split; lia|constructor].
  - inversion F as [|? ? Fh Fr]; subst. destruct Fh as [T E].
    destruct (String.eqb k k'); constructor; try (split; lia); auto.
Qed.

Lemma keyCounts_fold_zero (errs : list ErrorFeedback.TypingError) (m : list (string * (Z * Z))) :
  Forall (fun '(_, (t, e)) => t = 0 /\ 1 <= e) m ->
  Forall (fun '(_, (t, e)) => t = 0 /\ 1 <= e)
    (fold_left (fun m e => ErrorFeedback.keyCounts_incr (ErrorFeedback.expectedChar e) m) errs m).
Proof.
  revert m. induction errs as [|e r IH]; intros m F; simpl; [exact F|].
  apply IH, keyCounts_zero, F.
Qed.

Lemma recommendations_length (ps : list ErrorFeedback.PatternCount) (ks : list ErrorFeedback.ProblemKey) recs :
  ErrorFeedback.generateRecommendations ps ks = Some recs -> (length recs <= 3)%nat.
Proof.
  intros H. unfold ErrorFeedback.generateRecommendations in H. cbn zeta in H.
  destruct ps as [|p ps]; [|destruct (ErrorFeedback.pc_pattern p)]; try discriminate;
  injection H as <-;
  destruct ks;
  try match goal with |- context [if ?b then _ else _] => destruct b end;
  simpl; rewrite ?length_app; simpl; lia.
Qed.

Lemma recommendations_some (ps : list ErrorFeedback.PatternCount) (ks : list ErrorFeedback.ProblemKey) :
  Forall (fun p => ErrorFeedback.pc_pattern p <> None) ps ->
  exists recs, ErrorFeedback.generateRecommendations ps ks = Some recs.
Proof.
  intros F. unfold ErrorFeedback.generateRecommendations.
  destruct ps as [|p ps]; [eexists; reflexivity|].
  inversion F; subst. destruct (ErrorFeedback.pc_pattern p); [eexists; reflexivity|contradiction].
Qed.

Lemma focus_some (ps : list ErrorFeedback.PatternCount) :
  Forall (fun p => ErrorFeedback.pc_pattern p <> None) ps -> exists f, ErrorFeedback.focus_go ps = Some f.
Proof.
  induction 1 as [|p ps Hp F IH]; [eexists; reflexivity|].
  destruct IH as [f Hf]. simpl. rewrite Hf.
  destruct (5 <=? ErrorFeedback.pc_count p); [|eexists; reflexivity].
  destruct (ErrorFeedback.pc_pattern p); [eexists; reflexivity|contradiction].
Qed.

Lemma analyzeErrors_facts (st : ErrorFeedback.ErrorStore) :
  exists a, ErrorFeedback.analyzeErrors st = Some a /\
    ErrorFeedback.totalErrors a = Z.of_nat (length (ErrorFeedback.errors st)) /\
    (ErrorFeedback.errorRate a == (if (0 <? length (ErrorFeedback.errors st))%nat && (0 <? length (ErrorFeedback.sessionErrors st))%nat
                         then 100 else 0))%Q /\
    (length (ErrorFeedback.recommendations a) <= 3)%nat /\ NoDup (ErrorFeedback.improvementFocus a) /\
    Forall (fun k => 3 <= ErrorFeedback.errorCount k /\ (ErrorFeedback.accuracy k == 0)%Q) (ErrorFeedback.problematicKeys a) /\
    Sorted (fun x y => ErrorFeedback.errorCount y <= ErrorFeedback.errorCount x) (ErrorFeedback.problematicKeys a) /\
    Sorted (fun x y => ErrorFeedback.pc_count y <= ErrorFeedback.pc_count x) (ErrorFeedback.commonPatterns a) /\
    sumZ (map ErrorFeedback.pc_count (ErrorFeedback.commonPatterns a)) =
      Z.of_nat (length (filter ErrorFeedback.hasPattern (ErrorFeedback.errors st))).
Proof.
  unfold ErrorFeedback.analyzeErrors.
  destruct (ErrorFeedback.errors st) as [|e0 r] eqn:Es.
  - eexists. split; [reflexivity|]. simpl.
    repeat split; try reflexivity; try constructor; lia.
  - cbn zeta.
    set (errs := e0 :: r).
    set (pcs := fold_left _ errs []).
    set (kcs := fold_left _ errs []).
    set (cp := ErrorFeedback.sort_desc ErrorFeedback.pc_count _).
    set (pk := ErrorFeedback.sort_desc ErrorFeedback.errorCount _).
    assert (Fcp : Forall (fun p => ErrorFeedback.pc_pattern p <> None) cp).
    { destruct (sort_desc_spec ErrorFeedback.pc_count
        (map (fun '(t, c) => ErrorFeedback.mkPatternCount (ErrorFeedback.findPattern t) c) pcs)) as [_ P].
      apply Forall_forall. intros x Hx. apply (Permutation_in _ P) in Hx.
      apply in_map_iff in Hx as ([t c] & <- & _). simpl.
      destruct (findPattern_some t) as (p & -> & _). discriminate. }
    destruct (recommendations_some cp pk Fcp) as [recs Hr].
    destruct (focus_some cp Fcp) as [f Hf].
    unfold ErrorFeedback.generateImprovementFocus. rewrite Hr, Hf. simpl.
    eexists. split; [reflexivity|]. simpl.
    split; [reflexivity|].
    split.
    { destruct (length (ErrorFeedback.sessionErrors st)) as [|n] eqn:Ln; simpl; [reflexivity|].
      unfold Qdiv. rewrite Qmult_inv_r; [reflexivity|].
      intros C. unfold Qeq in C. simpl in C. lia. }
    split; [exact (recommendations_length _ _ _ Hr)|].
    split; [apply dedup_spec|].
    destruct (sort_desc_spec ErrorFeedback.errorCount
      (filter (fun k => 3 <=? ErrorFeedback.errorCount k)
         (map (fun '(k, (t, e)) => ErrorFeedback.mkProblemKey k e
                 (Qmax 0 (100 - (inject_Z e / inject_Z (Z.max t 1)) * 100))) kcs))) as [Spk Ppk].
    destruct (sort_desc_spec ErrorFeedback.pc_count
      (map (fun '(t, c) => ErrorFeedback.mkPatternCount (ErrorFeedback.findPattern t) c) pcs)) as [Scp Pcp].
    split.
    { apply Forall_forall. intros x Hx. apply (Permutation_in _ Ppk) in Hx.
      apply filter_In in Hx as [Hx H3]. apply Z.leb_le in H3.
      apply in_map_iff in Hx as ([k [t e]] & <- & Hin). simpl in H3 |- *.
      split; [exact H3|].
      pose proof (keyCounts_fold_zero errs [] (Forall_nil _)) as Z0.
      rewrite Forall_forall in Z0. specialize (Z0 _ Hin). simpl in Z0. destruct Z0 as [-> E1].
      rewrite Q.max_l; [reflexivity|].
      assert (Ee : (1 <= inject_Z e)%Q) by (change 1%Q with (inject_Z 1); rewrite <- Zle_Qle; exact E1).
      change (Z.max 0 1) with 1. setoid_replace (inject_Z e / inject_Z 1)%Q with (inject_Z e) by field. lra. }
    split; [exact Spk|]. split; [exact Scp|].
    unfold cp. rewrite (sumZ_perm _ _ (Permutation_map ErrorFeedback.pc_count Pcp)), map_map.
    replace (map (fun x => ErrorFeedback.pc_count _) pcs) with (map snd pcs)
      by (apply map_ext; intros [t c]; reflexivity).
    unfold pcs. rewrite patternCounts_sum. reflexivity.
Qed.

(** X8. [analyzeErrors] never throws: it always returns an analysis, whose
    [totalErrors] is the number of logged errors, whose [errorRate] is 100
    when both the log and the session are non-empty and 0 otherwise, which
    carries at most three recommendations and no repeated focus area. *)
Theorem analyzeErrors_report (st : ErrorFeedback.ErrorStore) :
  exists a, ErrorFeedback.analyzeErrors st = Some a /\
    ErrorFeedback.totalErrors a = Z.of_nat (length (ErrorFeedback.errors st)) /\
    (ErrorFeedback.errorRate a ==
       (if (0 <? length (ErrorFeedback.errors st))%nat && (0 <? length (ErrorFeedback.sessionErrors st))%nat
        then 100 else 0))%Q /\
    (length (ErrorFeedback.recommendations a) <= 3)%nat /\
    NoDup (ErrorFeedback.improvementFocus a).
Proof.
  destruct (analyzeErrors_facts st) as (a & Ha & H1 & H2 & H3 & H4 & _).
  exists a. repeat split; assumption.
Qed.

(** X9. In the analysis, every problematic key has at least three errors and
    an accuracy of exactly 0 (its attempt count is never incremented); the
    problematic keys and the common patterns are ordered by decreasing count,
    and the pattern counts add up to the number of logged errors that carry a
    pattern. *)
Theorem analyzeErrors_rankings (st : ErrorFeedback.ErrorStore) :
  exists a, ErrorFeedback.analyzeErrors st = Some a /\
    Forall (fun k => 3 <= ErrorFeedback.errorCount k /\ (ErrorFeedback.accuracy k == 0)%Q)
      (ErrorFeedback.problematicKeys a) /\
    Sorted (desc_by ErrorFeedback.errorCount) (ErrorFeedback.problematicKeys a) /\
    Sorted (desc_by ErrorFeedback.pc_count) (ErrorFeedback.commonPatterns a) /\
    sumZ (map ErrorFeedback.pc_count (ErrorFeedback.commonPatterns a)) =
      Z.of_nat (length (filter ErrorFeedback.hasPattern (ErrorFeedback.errors st))).
Proof.
  destruct (analyzeErrors_facts st) as (a & Ha & _ & _ & _ & _ & H5 & H6 & H7 & H8).
  exists a. repeat split; assumption.
Qed.

(** ** [HeatMapService] *)
Section Bump.
Variable lk : string.
Variable f : HeatMap.KeystrokeData -> HeatMap.KeystrokeData.
Variable fresh : HeatMap.KeystrokeData.
Hypothesis f_key : forall x, HeatMap.key (f x) = HeatMap.key x.
Hypothesis fresh_key : HeatMap.key fresh = lk.

Lemma bump_sum (g : HeatMap.KeystrokeData -> Z) (d : Z) (l : list HeatMap.KeystrokeData) :
  (forall x, g (f x) = g x + d) -> g fresh = 0 ->
  sumZ (map g (HeatMap.bumpKeystroke lk f fresh l)) = sumZ (map g l) + d.
Proof.
  intros Hg H0. induction l as [|x r IH]; simpl.
  - rewrite Hg, H0. lia.
  - destruct (String.eqb (HeatMap.key x) lk); simpl; [rewrite Hg|rewrite IH]; lia.
Qed.

Lemma bump_keys (l : list HeatMap.KeystrokeData) :
  map HeatMap.key (HeatMap.bumpKeystroke lk f fresh l) =
  match findKey lk l with Some _ => map HeatMap.key l | None => app (map HeatMap.key l) [lk] end.
Proof.
  unfold findKey. induction l as [|x r IH]; simpl; [rewrite f_key, fresh_key; reflexivity|].
  destruct (String.eqb (HeatMap.key x) lk) eqn:E; simpl.
  - rewrite f_key. reflexivity.
  - rewrite IH. destruct (find _ r); reflexivity.
Qed.

Lemma bump_Forall (P : HeatMap.KeystrokeData -> Prop) (l : list HeatMap.KeystrokeData) :
  Forall P l -> P (f fresh) -> (forall x, P x -> P (f x)) ->
  Forall P (HeatMap.bumpKeystroke lk f fresh l).
Proof.
  intros Hl Hf Hx. induction Hl as [|x r Px Pr IH]; simpl; [constructor; auto|].
  destruct (String.eqb (HeatMap.key x) lk); constructor; auto.
Qed.

Lemma bump_find (l : list HeatMap.KeystrokeData) :
  findKey lk (HeatMap.bumpKeystroke lk f fresh l) =
  Some (f (match findKey lk l with Some y => y | None => fresh end)).
Proof.
  unfold findKey. induction l as [|x r IH]; simpl.
  - rewrite f_key, fresh_key, String.eqb_refl. reflexivity.
  - destruct (String.eqb (HeatMap.key x) lk) eqn:E; simpl.
    + rewrite f_key, E. reflexivity.
    + rewrite E. exact IH.
Qed.

Lemma bump_find_other (k' : string) (l : list HeatMap.KeystrokeData) :
  k' <> lk -> findKey k' (HeatMap.bumpKeystroke lk f fresh l) = findKey k' l.
Proof.
  intros Hne. unfold findKey. induction l as [|x r IH]; simpl.
  - rewrite f_key, fresh_key. apply String.eqb_neq in Hne. rewrite (String.eqb_sym lk), Hne. reflexivity.
  - destruct (String.eqb (HeatMap.key x) lk) eqn:E; simpl.
    + apply String.eqb_eq in E. rewrite f_key, E.
      apply String.eqb_neq in Hne. rewrite (String.eqb_sym lk), Hne. reflexivity.
    + rewrite IH. reflexivity.
Qed.

End Bump.

Lemma findKey_none_notin (lk : string) (l : list HeatMap.KeystrokeData) :
  findKey lk l = None -> ~ In lk (map HeatMap.key l).
Proof.
  unfold findKey. intros H Hin. apply in_map_iff in Hin as (x & <- & Hx).
  apply (find_none _ _ H) in Hx. rewrite String.eqb_refl in Hx. discriminate.
Qed.

Lemma findKey_some (lk : string) (l : list HeatMap.KeystrokeData) x :
  findKey lk l = Some x -> In x l /\ HeatMap.key x = lk.
Proof.
  unfold findKey. intros H. split; [exact (proj1 (find_some _ _ H))|].
  apply String.eqb_eq. exact (proj2 (find_some _ _ H)).
Qed.

Lemma heatInvariant_initial (nowMs : Z) : heatInvariant (HeatMap.getInitialHeatMapData nowMs).
Proof. repeat split; simpl; try lia; constructor. Qed.

(** X10. [recordKeystroke] keeps the heat-map data consistent: the totals are
    the sums over the per-key entries, the logged errors are no more than the
    error total, each key has one entry, stored lower-cased and known to the
    layout, with at least one attempt, at most as many errors as attempts,
    and an average time equal to its total time over its attempts,
    rounded to a double. *)
Theorem recordKeystroke_keeps_invariant (nowMs : Z) (k : string) (t : Q)
    (isCorrect : bool) (ek w : option string) (p : option Q) (data : HeatMap.HeatMapData)
    (H : heatInvariant data) :
  heatInvariant (HeatMap.recordKeystroke nowMs k t isCorrect ek w p data).
Proof.
  unfold HeatMap.recordKeystroke.
  destruct (HeatMap.layoutGet (toLowerCase k)) as [v|] eqn:Ev; [|exact H].
  destruct H as (Ht & He & Hl & Hnd & Hf).
  set (lk := toLowerCase k) in *.
  set (fresh := HeatMap.mkKeystrokeData lk 0 0 0 0 (HeatMap.lv_finger v) (HeatMap.lv_position v)).
  set (f := HeatMap.updateKeystroke t isCorrect).
  assert (f_key : forall x, HeatMap.key (f x) = HeatMap.key x) by reflexivity.
  assert (fresh_key : HeatMap.key fresh = lk) by reflexivity.
  unfold heatInvariant; cbn [HeatMap.keystroke HeatMap.totalKeystrokes HeatMap.totalErrors HeatMap.hm_errors].
  split.
  { rewrite (bump_sum lk f fresh HeatMap.attempts 1); [lia| |]; reflexivity. }
  split.
  { rewrite (bump_sum lk f fresh HeatMap.errors (if isCorrect then 0 else 1)).
    - destruct isCorrect; lia.
    - intros x. unfold f, HeatMap.updateKeystroke. destruct isCorrect; simpl; lia.
    - reflexivity. }
  split.
  { destruct isCorrect; simpl; [lia|].
    destruct (HeatMap.errorDetailsGiven ek w p); [|lia].
    destruct ek, w, p; simpl; rewrite ?length_app; simpl; lia. }
  split.
  { rewrite (bump_keys lk f fresh f_key fresh_key).
    destruct (findKey lk (HeatMap.keystroke data)) eqn:F; [exact Hnd|].
    apply (Permutation_NoDup (Permutation_cons_append _ _)).
    constructor; [exact (findKey_none_notin _ _ F)|exact Hnd]. }
  apply bump_Forall; [exact Hf| |].
  - unfold f, fresh, HeatMap.updateKeystroke; cbn [HeatMap.key HeatMap.attempts HeatMap.errors HeatMap.totalTime].
    split; [destruct isCorrect; lia|]. split; [lia|]. split; [apply toLowerCase_idem|].
    split; [rewrite Ev; discriminate|].
    reflexivity.
  - intros x (Hx1 & Hx2 & Hx3 & Hx4 & Hx5).
    unfold f, HeatMap.updateKeystroke; cbn [HeatMap.key HeatMap.attempts HeatMap.errors HeatMap.totalTime].
    split; [destruct isCorrect; lia|]. split; [lia|]. split; [exact Hx3|]. split; [exact Hx4|].
    reflexivity.
Qed.

(** A mistyped "Constructor" (an inherited layout property) recorded into
    the initial data. *)
Lemma recordKeystroke_keeps_invariant_witness :
  heatInvariant (HeatMap.getInitialHeatMapData 0) /\
  heatInvariant (HeatMap.recordKeystroke 5 "Constructor" (1 # 4) false (Some "c") (Some "cat") (Some 0%Q)
                   (HeatMap.getInitialHeatMapData 0)).
Proof.
  assert (H : heatInvariant (HeatMap.getInitialHeatMapData 0)) by exact (heatInvariant_initial 0).
  split; [exact H|].
  exact (recordKeystroke_keeps_invariant _ _ _ _ _ _ _ _ H).
Defined.
Lemma ratio_percent_bounds (a e : Z) :
  1 <= a -> 0 <= e <= a ->
  0 <= Math_round (fl (fl (inject_Z (a - e) / inject_Z a) * 100)) <= 100.
Proof.
  intros Ha He. apply percent_round_bounds.
  assert (Pa : (0 < inject_Z a)%Q) by (change 0%Q with (inject_Z 0); rewrite <- Zlt_Qlt; lia).
  split.
  - apply Qle_shift_div_l; [exact Pa|]. rewrite Qmult_0_l.
    change 0%Q with (inject_Z 0). rewrite <- Zle_Qle. lia.
  - apply Qle_shift_div_r; [exact Pa|]. rewrite Qmult_1_l, <- Zle_Qle. lia.
Qed.

Lemma layoutGet_none (lk : string) :
  HeatMap.layoutGet lk = None <->
  (~ In lk (map fst HeatMap.keyboardLayout) /\ ~ In lk HeatMap.objectPrototypeMembers).
Proof.
  unfold HeatMap.layoutGet.
  destruct (find (fun e => String.eqb (fst e) lk) HeatMap.keyboardLayout) as [[x info]|] eqn:F.
  - split; [discriminate|]. intros [Hn _]. exfalso. apply Hn.
    destruct (find_some _ _ F) as [Hin Heq]. apply String.eqb_eq in Heq. simpl in Heq. subst x.
    apply in_map_iff. exists (lk, info). auto.
  - destruct (existsb (String.eqb lk) HeatMap.objectPrototypeMembers) eqn:E.
    + split; [discriminate|]. intros [_ Hn]. exfalso. apply Hn.
      apply existsb_exists in E as (y & Hy & Heq). apply String.eqb_eq in Heq. subst y. exact Hy.
    + split; [intros _|reflexivity]. split.
      * intros Hin. apply in_map_iff in Hin as ([y info] & Hy & Hin). simpl in Hy. subst y.
        apply (find_none _ _ F) in Hin. simpl in Hin. rewrite String.eqb_refl in Hin. discriminate.
      * intros Hin. assert (existsb (String.eqb lk) HeatMap.objectPrototypeMembers = true)
          by (apply existsb_exists; exists lk; split; [exact Hin|apply String.eqb_refl]).
        congruence.
Qed.

(** X11. [recordKeystroke] leaves the data unchanged exactly when the
    lower-cased key is neither a layout key nor an inherited [Object.prototype]
    member name (so a key such as "constructor" is recorded, with no finger);
    otherwise it adds one keystroke (and one error when incorrect) to the
    totals and to that key's entry, created with the layout's finger when
    missing, and leaves the entries of all other keys unchanged. *)
Theorem recordKeystroke_effect (nowMs : Z) (k : string) (t : Q)
    (isCorrect : bool) (ek w : option string) (p : option Q) (data : HeatMap.HeatMapData) :
  let lk := toLowerCase k in
  let data' := HeatMap.recordKeystroke nowMs k t isCorrect ek w p data in
  (data' = data <-> (~ In lk (map fst HeatMap.keyboardLayout) /\ ~ In lk HeatMap.objectPrototypeMembers)) /\
  (forall v, HeatMap.layoutGet lk = Some v ->
     HeatMap.totalKeystrokes data' = HeatMap.totalKeystrokes data + 1 /\
     HeatMap.totalErrors data' = HeatMap.totalErrors data + (if isCorrect then 0 else 1) /\
     exists x, findKey lk (HeatMap.keystroke data') = Some x /\
       HeatMap.attempts x =
         1 + match findKey lk (HeatMap.keystroke data) with Some y => HeatMap.attempts y | None => 0 end /\
       HeatMap.errors x = (if isCorrect then 0 else 1) +
         match findKey lk (HeatMap.keystroke data) with Some y => HeatMap.errors y | None => 0 end /\
       HeatMap.finger x =
         match findKey lk (HeatMap.keystroke data) with
         | Some y => HeatMap.finger y | None => HeatMap.lv_finger v end) /\
  (forall k', k' <> lk -> findKey k' (HeatMap.keystroke data') = findKey k' (HeatMap.keystroke data)).
Proof.
  intros lk data'. rewrite <- layoutGet_none. unfold data', HeatMap.recordKeystroke. fold lk.
  destruct (HeatMap.layoutGet lk) as [v|] eqn:Ev.
  - set (fresh := HeatMap.mkKeystrokeData lk 0 0 0 0 (HeatMap.lv_finger v) (HeatMap.lv_position v)).
    set (f := HeatMap.updateKeystroke t isCorrect).
    assert (f_key : forall x, HeatMap.key (f x) = HeatMap.key x) by reflexivity.
    assert (fresh_key : HeatMap.key fresh = lk) by reflexivity.
    split; [|split].
    + split; [|discriminate]. intros Heq. apply (f_equal HeatMap.totalKeystrokes) in Heq.
      simpl in Heq. lia.
    + intros v' Hv'. injection Hv' as <-. cbn [HeatMap.totalKeystrokes HeatMap.totalErrors HeatMap.keystroke].
      split; [reflexivity|]. split; [destruct isCorrect; lia|].
      eexists. rewrite (bump_find lk f fresh f_key fresh_key). split; [reflexivity|].
      destruct (findKey lk (HeatMap.keystroke data)); unfold f, fresh, HeatMap.updateKeystroke; cbn [HeatMap.attempts HeatMap.errors HeatMap.finger];
        (split; [lia|]); (split; [destruct isCorrect; lia|reflexivity]).
    + intros k' Hne. simpl. exact (bump_find_other lk f fresh f_key fresh_key k' _ Hne).
  - split; [|split].
    + split; reflexivity.
    + intros v' Hv'. discriminate.
    + intros k' _. reflexivity.
Qed.

(** X12. On consistent heat-map data [getKeyAccuracy] is between 0 and 100,
    and it is 100 for a key that has no entry. *)
Theorem getKeyAccuracy_bounds (k : string) (data : HeatMap.HeatMapData) (H : heatInvariant data) :
  0 <= HeatMap.getKeyAccuracy k data <= 100 /\
  (findKey (toLowerCase k) (HeatMap.keystroke data) = None -> HeatMap.getKeyAccuracy k data = 100).
Proof.
  destruct H as (_ & _ & _ & _ & Hf).
  unfold HeatMap.getKeyAccuracy. fold (findKey (toLowerCase k) (HeatMap.keystroke data)).
  destruct (findKey (toLowerCase k) (HeatMap.keystroke data)) as [x|] eqn:F.
  - split; [|discriminate].
    destruct (findKey_some _ _ _ F) as [Hin _].
    rewrite Forall_forall in Hf. destruct (Hf x Hin) as (He & Ha & _).
    destruct (HeatMap.attempts x =? 0) eqn:E0; [lia|].
    apply ratio_percent_bounds; lia.
  - split; [lia|reflexivity].
Qed.

(** The key "a" after one wrong and one right keystroke. *)
Lemma getKeyAccuracy_bounds_witness :
  heatInvariant (HeatMap.recordKeystroke 2 "A" 1 true None None None
                   (HeatMap.recordKeystroke 1 "a" 1 false None None None (HeatMap.getInitialHeatMapData 0))) /\
  HeatMap.getKeyAccuracy "A" (HeatMap.recordKeystroke 2 "A" 1 true None None None
                   (HeatMap.recordKeystroke 1 "a" 1 false None None None (HeatMap.getInitialHeatMapData 0))) = 50.
Proof.
  assert (H : heatInvariant (HeatMap.recordKeystroke 2 "A" 1 true None None None
                   (HeatMap.recordKeystroke 1 "a" 1 false None None None (HeatMap.getInitialHeatMapData 0)))).
  { unfold heatInvariant. cbv -[fl].
    split; [reflexivity|]. split; [reflexivity|]. split; [discriminate|].
    split; [constructor; [intros []|constructor]|].
    constructor; [|constructor].
    split; [split; discriminate|]. split; [discriminate|]. split; [reflexivity|].
    split; [discriminate|vm_compute; reflexivity]. }
  split; [exact H|].
  destruct (getKeyAccuracy_bounds "A" _ H) as [B _].
  vm_compute. reflexivity.
Defined.
